(** * sinc_net_deepdream: the frame-batching and aggregation engine

    A shallow embedding of [DeepDream.__init__] and [DeepDream.transform]
    (src/sinc_net_deepdream/deep_dream.py) together with the statements the
    specification makes about them.

    - Python integers are [Z]; 1-D tensors are lists of scalars, 2-D tensors
      are lists of rows.  A list of rows does not record the width of a
      tensor without rows, so the operations that need the width take it as
      an argument.
    - The tensor element type is abstract (class [Scalar]): the arithmetic is
      torch's, not the repository's.  [binary32] instantiates it with IEEE-754
      single precision for closed evaluations, [exact_real] with the reals.
      Sums run from the first element to the last, starting at zero.
    - [.float()], [.contiguous()], [.cuda()], [.cpu()], [Variable(...)] and
      [.numpy()] leave the values as they are and are not modelled.
    - The network [_dnn_net (_cnn_net x)] is an external collaborator: a
      function from a batch of frames to a batch of embeddings.  Every call is
      recorded in an event log, as is every line printed.
    - Exceptions end the call; the log keeps what happened before.  The
      [while] is run on fuel; [Diverge] stands for a loop that does not end. *)

From Stdlib Require Import String.
From Stdlib Require Import ZArith List Lia Bool Permutation.
From Stdlib Require Import Floats.SpecFloat.
From Stdlib Require Import Reals Lra.
From Stdlib Require Import DecimalString DecimalNat.
Import ListNotations.

Local Open Scope Z_scope.

(** ** Scalars and tensors *)

Class Scalar (T : Type) : Type := {
  s_zero : T;
  s_add : T -> T -> T;
  s_mul : T -> T -> T;
  s_div : T -> T -> T;
  s_sqrt : T -> T;
  s_abs : T -> T;
  s_of_Z : Z -> T;
  s_isnan : T -> bool
}.

Definition zlen {A : Type} (l : list A) : Z := Z.of_nat (length l).

(** ** Outcomes, events and the effect monad *)

Inductive exn : Type :=
| ZeroDivisionError
| RuntimeError
| IndexError
| UnboundLocalError.

Inductive outcome (A : Type) : Type :=
| Ok (a : A)
| Raise (e : exn)
| Diverge.

Arguments Ok {A} a.
Arguments Raise {A} e.
Arguments Diverge {A}.

Inductive event (T : Type) : Type :=
| AdapterCall (batch : list (list T))
| Stdout (line : string).

Arguments AdapterCall {T} batch.
Arguments Stdout {T} line.

Definition M (T A : Type) : Type := list (event T) -> list (event T) * outcome A.

Definition ret {T A : Type} (a : A) : M T A := fun tr => (tr, Ok a).

Definition bind {T A B : Type} (m : M T A) (k : A -> M T B) : M T B :=
  fun tr =>
    match m tr with
    | (tr', Ok a) => k a tr'
    | (tr', Raise e) => (tr', Raise e)
    | (tr', Diverge) => (tr', Diverge)
    end.

Definition lift {T A : Type} (o : outcome A) : M T A := fun tr => (tr, o).

Definition emit {T : Type} (ev : event T) : M T unit := fun tr => (tr ++ [ev], Ok tt).

Notation "x <- m ;; k" := (bind m (fun x => k))
  (at level 61, m at next level, right associativity).

(** A computation that only appends to the log, and whose events and
    outcome do not depend on the log it starts from. *)
Definition appends {T A : Type} (m : M T A) : Prop :=
  forall tr : list (event T), m tr = (tr ++ fst (m []), snd (m [])).

(** A computation that never raises the exception [e]. *)
Definition avoids {T A : Type} (e : exn) (m : M T A) : Prop :=
  forall tr : list (event T), snd (m tr) <> Raise e.

Definition adapter_calls {T : Type} (tr : list (event T)) : list (list (list T)) :=
  flat_map (fun ev => match ev with AdapterCall b => [b] | Stdout _ => [] end) tr.

Definition printed {T : Type} (tr : list (event T)) : list string :=
  flat_map (fun ev => match ev with AdapterCall _ => [] | Stdout s => [s] end) tr.

(** ** Python and torch indexing *)

(** A slice bound [i] on a dimension of size [len]: negative bounds count
    from the end, then the bound is clamped to [0, len]. *)
Definition py_clamp (len i : Z) : Z :=
  let j := if i <? 0 then i + len else i in
  Z.max 0 (Z.min len j).

Definition slice_bounds (len start stop : Z) : nat * nat :=
  let a := py_clamp len start in
  let b := Z.max a (py_clamp len stop) in
  (Z.to_nat a, Z.to_nat b).

(** [l[start:stop]] *)
Definition slice {A : Type} (l : list A) (start stop : Z) : list A :=
  let '(a, b) := slice_bounds (zlen l) start stop in
  firstn (b - a) (skipn a l).

(** Broadcasting one dimension of an assignment source to size [n]: the
    sizes agree, or the source has size one and is repeated. *)
Definition broadcast_to {A : Type} (n : nat) (src : list A) : option (list A) :=
  if Nat.eqb (length src) n then Some src
  else match src with
       | [x] => Some (repeat x n)
       | _ => None
       end.

Fixpoint all_some {A : Type} (l : list (option A)) : option (list A) :=
  match l with
  | [] => Some []
  | Some x :: r => match all_some r with Some r' => Some (x :: r') | None => None end
  | None :: _ => None
  end.

Definition tensor1 (T : Type) : Type := list T.
Definition tensor2 (T : Type) : Type := list (list T).

Section Tensors.
Context {T : Type} `{Scalar T}.

(** [torch.zeros(r, c)]: a negative dimension is a RuntimeError. *)
Definition zeros2 (r c : Z) : outcome (tensor2 T) :=
  if (r <? 0) || (c <? 0) then Raise RuntimeError
  else Ok (repeat (repeat s_zero (Z.to_nat c)) (Z.to_nat r)).

(** [dst[i, :] = src] where the rows of [dst] have [width] columns. *)
Definition set_row (width : Z) (dst : tensor2 T) (i : Z) (src : tensor1 T) : outcome (tensor2 T) :=
  if (0 <=? i) && (i <? zlen dst) then
    match broadcast_to (Z.to_nat width) src with
    | Some row => Ok (firstn (Z.to_nat i) dst ++ row :: skipn (S (Z.to_nat i)) dst)
    | None => Raise RuntimeError
    end
  else Raise IndexError.

(** [dst[start:stop] = src] where the rows of [dst] have [width] columns. *)
Definition set_rows (width : Z) (dst : tensor2 T) (start stop : Z) (src : tensor2 T) : outcome (tensor2 T) :=
  let '(a, b) := slice_bounds (zlen dst) start stop in
  match broadcast_to (b - a) src with
  | Some rows =>
      match all_some (map (broadcast_to (Z.to_nat width)) rows) with
      | Some rows' => Ok (firstn a dst ++ rows' ++ skipn b dst)
      | None => Raise RuntimeError
      end
  | None => Raise RuntimeError
  end.

(** *** The aggregation of line 198 *)

Definition sum (l : list T) : T := fold_left s_add l s_zero.

(** The 2-norm of one row as torch reduces it: over a dimension of size
    one the reduction is the absolute value of the single element, without
    squaring; otherwise it is the square root of the sum of the squares. *)
Definition vector_norm (row : tensor1 T) : T :=
  match row with
  | [x] => s_abs x
  | _ => s_sqrt (sum (map (fun x => s_mul x x) row))
  end.

(** [m.norm(p=2, dim=1)] *)
Definition norm_p2_dim1 (m : tensor2 T) : tensor1 T := map vector_norm m.

(** [v.view(-1, 1)] *)
Definition view_column (v : tensor1 T) : tensor2 T := map (fun x => [x]) v.

(** [m / col] with [col] of shape [N, 1] broadcast along the columns. *)
Fixpoint div_broadcast (m col : tensor2 T) : tensor2 T :=
  match m, col with
  | row :: m', c :: col' => map (fun x => s_div x (hd s_zero c)) row :: div_broadcast m' col'
  | _, _ => []
  end.

Fixpoint add_rows (a b : tensor1 T) : tensor1 T :=
  match a, b with
  | x :: a', y :: b' => s_add x y :: add_rows a' b'
  | _, _ => []
  end.

(** [torch.mean(m, dim=0)] for [m] with [width] columns: the column sums
    divided by the number of rows. *)
Definition mean_dim0 (width : Z) (m : tensor2 T) : tensor1 T :=
  map (fun s => s_div s (s_of_Z (zlen m)))
      (fold_left add_rows m (repeat s_zero (Z.to_nat width))).

Definition aggregate (width : Z) (vectors : tensor2 T) : tensor1 T :=
  mean_dim0 width (div_broadcast vectors (view_column (norm_p2_dim1 vectors))).

(** [torch.sum(torch.isnan(p))] *)
Definition count_nan (p : tensor1 T) : Z := zlen (filter s_isnan p).

(** *** The aggregation in the words of the specification *)

(** The aggregation as the specification words it: each frame embedding is
    divided by its own L2 norm, then every coordinate is averaged over the
    frames.  The L2 norm of a frame embedding is the norm the tensor library
    computes for a vector, which for a single coordinate is its
    magnitude. *)
Definition l2_norm (e : tensor1 T) : T := vector_norm e.

Definition normalize_frame (e : tensor1 T) : tensor1 T :=
  map (fun x => s_div x (l2_norm e)) e.

Definition coordinate_mean (j : nat) (es : tensor2 T) : T :=
  s_div (sum (map (fun e => nth j e s_zero) es)) (s_of_Z (zlen es)).

Definition utterance_embedding_spec (width : Z) (es : tensor2 T) : tensor1 T :=
  map (fun j => coordinate_mean j (map normalize_frame es)) (seq 0 (Z.to_nat width)).

End Tensors.

(** The IEEE-754 behaviour of NaN and of zero that the health check relies
    on. *)
Record ieee_laws {T : Type} `{Scalar T} : Prop := {
  nan_add_l : forall x y : T, s_isnan x = true -> s_isnan (s_add x y) = true;
  nan_add_r : forall x y : T, s_isnan y = true -> s_isnan (s_add x y) = true;
  nan_div_l : forall x y : T, s_isnan x = true -> s_isnan (s_div x y) = true;
  zero_div_zero : s_isnan (s_div (s_zero (T := T)) s_zero) = true;
  zero_sq : s_mul (s_zero (T := T)) s_zero = s_zero;
  zero_add : s_add (s_zero (T := T)) s_zero = s_zero;
  zero_sqrt : s_sqrt (s_zero (T := T)) = s_zero;
  zero_abs : s_abs (s_zero (T := T)) = s_zero;
  of_Z_zero : s_of_Z 0 = s_zero (T := T)
}.

Arguments ieee_laws T {_}.

(** ** The engine *)

Section Engine.
Context {T : Type} `{Scalar T}.

(** Module-level configuration, read once from cfg/SincNet_TIMIT.cfg:
    [window_length], [window_shift] (in samples) and
    [vector_dim = fc_layer_sizes[-1]]. *)
Variables (window_length window_shift vector_dim : Z).

(** [_load_model]: builds the two networks and loads the checkpoint at
    [model_path]; it either fails or yields the composed forward function. *)
Variable load_model : string -> bool -> outcome (tensor2 T -> tensor2 T).

Record DeepDream : Type := {
  layer_name : string;
  verbose : bool;
  number_of_chunks : Z;
  use_gpu : bool;
  net : tensor2 T -> tensor2 T
}.

(** [DeepDream.__init__] (lines 71-90) *)
Definition init (layer model_path : string) (chunks : Z) (gpu verb : bool) : M T DeepDream :=
  _ <- (if verb then emit (Stdout "Loading model ...") else ret tt) ;;
  f <- lift (load_model model_path gpu) ;;
  ret {| layer_name := layer; verbose := verb; number_of_chunks := chunks;
         use_gpu := gpu; net := f |}.

Variable self : DeepDream.

(** [self._dnn_net(self._cnn_net(network_input))] *)
Definition forward (network_input : tensor2 T) : M T (tensor2 T) :=
  _ <- emit (AdapterCall network_input) ;;
  ret (net self network_input).

Record loop_state : Type := {
  beginning_of_sample : Z;
  end_of_sample : Z;
  frame_count : Z;
  vectors_output_offset : Z;
  signal_array : tensor2 T;
  vectors : tensor2 T
}.

(** Lines 174-190: one pass through the body of the [while]. *)
Definition loop_body (signal : tensor1 T) (st : loop_state) : M T loop_state :=
  sa <- lift (set_row window_length (signal_array st) (frame_count st)
                (slice signal (beginning_of_sample st) (end_of_sample st))) ;;
  let b := beginning_of_sample st + window_shift in
  let e := b + window_length in
  let fc := frame_count st + 1 in
  if fc =? number_of_chunks self then
    out <- forward sa ;;
    v <- lift (set_rows vector_dim (vectors st) (vectors_output_offset st)
                 (vectors_output_offset st + zlen sa) out) ;;
    fresh <- lift (zeros2 (number_of_chunks self) window_length) ;;
    ret {| beginning_of_sample := b; end_of_sample := e; frame_count := 0;
           vectors_output_offset := vectors_output_offset st + zlen sa;
           signal_array := fresh; vectors := v |}
  else
    ret {| beginning_of_sample := b; end_of_sample := e; frame_count := fc;
           vectors_output_offset := vectors_output_offset st;
           signal_array := sa; vectors := vectors st |}.

(** Line 173: [while end_of_sample < signal.shape[0]]. *)
Fixpoint while_loop (fuel : nat) (signal : tensor1 T) (st : loop_state) : M T loop_state :=
  if end_of_sample st <? zlen signal then
    match fuel with
    | O => lift Diverge
    | S fuel' => st' <- loop_body signal st ;; while_loop fuel' signal st'
    end
  else ret st.

(** Line 160: [int((signal.shape[0] - window_length) / window_shift + 1)].
    The division is Python's true division and [int] rounds towards zero;
    for lengths below [2^53] the rounding of the quotient never reaches the
    next integer, so the result is the exact quotient
    [(len - window_length + window_shift) / window_shift] rounded towards
    zero. *)
Definition number_of_frames (len : Z) : outcome Z :=
  if window_shift =? 0 then Raise ZeroDivisionError
  else Ok (Z.quot (len - window_length + window_shift) window_shift).

(** Lines 152-204: the body of the [for], up to the assignment of
    [nan_sum].  With [window_shift > 0] the [while] runs at most
    [len(signal)] times. *)
Definition process_waveform (signal : tensor1 T) : M T (tensor1 T * Z) :=
  n <- lift (number_of_frames (zlen signal)) ;;
  sa <- lift (zeros2 (number_of_chunks self) window_length) ;;
  v <- lift (zeros2 n vector_dim) ;;
  st <- while_loop (length signal) signal
          {| beginning_of_sample := 0; end_of_sample := window_length;
             frame_count := 0; vectors_output_offset := 0;
             signal_array := sa; vectors := v |} ;;
  v' <- (if frame_count st >? 0 then
           out <- forward (slice (signal_array st) 0 (frame_count st)) ;;
           lift (set_rows vector_dim (vectors st) (vectors_output_offset st)
                   (zlen (vectors st)) out)
         else ret (vectors st)) ;;
  let predictions := aggregate vector_dim v' in
  ret (predictions, count_nan predictions).

(** Lines 152-195 on their own: the buffer [vectors] of one waveform as
    the frame loop and the partial batch leave it, which line 198
    aggregates. *)
Definition embedding_buffer (signal : tensor1 T) : M T (tensor2 T) :=
  n <- lift (number_of_frames (zlen signal)) ;;
  sa <- lift (zeros2 (number_of_chunks self) window_length) ;;
  v <- lift (zeros2 n vector_dim) ;;
  st <- while_loop (length signal) signal
          {| beginning_of_sample := 0; end_of_sample := window_length;
             frame_count := 0; vectors_output_offset := 0;
             signal_array := sa; vectors := v |} ;;
  if frame_count st >? 0 then
    out <- forward (slice (signal_array st) 0 (frame_count st)) ;;
    lift (set_rows vector_dim (vectors st) (vectors_output_offset st)
            (zlen (vectors st)) out)
  else ret (vectors st).

(** The variables the [for] leaves bound for the code after it. *)
Record locals : Type := {
  l_predictions : tensor1 T;
  l_nan_sum : Z;
  l_sample_rate : Z
}.

(** Lines 151-204: the [for] over the input pairs. *)
Fixpoint for_loop (x : list (tensor1 T * Z)) (bound : option locals) : M T (option locals) :=
  match x with
  | [] => ret bound
  | (signal, sample_rate) :: rest =>
      r <- process_waveform signal ;;
      for_loop rest (Some {| l_predictions := fst r; l_nan_sum := snd r;
                             l_sample_rate := sample_rate |})
  end.

(** [DeepDream.transform] (lines 148-211).  The health check of lines
    206-210 stands after the [for], at the indentation of [output = []]. *)
Definition transform (x : list (tensor1 T * Z)) : M T (list (option (tensor1 T) * Z)) :=
  bound <- for_loop x None ;;
  match bound with
  | None => lift (Raise UnboundLocalError)
  | Some l =>
      if l_nan_sum l >? 0 then
        _ <- emit (Stdout "NaNs occurred, no result is returned") ;;
        ret [(None, l_sample_rate l)]
      else ret [(Some (l_predictions l), l_sample_rate l)]
  end.

(** Frame [i] of a waveform: the samples [i * shift, i * shift + length). *)
Definition frame (signal : tensor1 T) (i : nat) : tensor1 T :=
  slice signal (Z.of_nat i * window_shift) (Z.of_nat i * window_shift + window_length).

(** The batches handed to the network while one waveform is processed, in
    call order, and the frames they hold. *)
Definition batches_fed (signal : tensor1 T) : list (tensor2 T) :=
  adapter_calls (fst (process_waveform signal [])).

Definition frames_fed (signal : tensor1 T) : tensor2 T :=
  concat (batches_fed signal).

(** *** The invariant of the loop and the shape of what it feeds *)

(** What holds each time the loop condition is evaluated, after [k] passes;
    [n] is the number of rows of [vectors] and [tr0] the log at loop entry. *)
Definition loop_inv (signal : tensor1 T) (n : Z) (tr0 : list (event T)) (k : nat) (st : loop_state)
  (tr : list (event T)) : Prop :=
  beginning_of_sample st = Z.of_nat k * window_shift /\
  end_of_sample st = Z.of_nat k * window_shift + window_length /\
  exists calls : list (tensor2 T),
    tr = tr0 ++ map AdapterCall calls /\
    Forall (fun b => zlen b = number_of_chunks self) calls /\
    0 <= frame_count st < number_of_chunks self /\
    Z.of_nat k = zlen calls * number_of_chunks self + frame_count st /\
    vectors_output_offset st = zlen calls * number_of_chunks self /\
    zlen (signal_array st) = number_of_chunks self /\
    Forall (fun f => length f = Z.to_nat window_length) (signal_array st) /\
    concat calls ++ firstn (Z.to_nat (frame_count st)) (signal_array st)
      = map (frame signal) (seq 0 k) /\
    zlen (vectors st) = n /\
    firstn (Z.to_nat (vectors_output_offset st)) (vectors st)
      = concat (map (net self) calls) /\
    skipn (Z.to_nat (vectors_output_offset st)) (vectors st)
      = repeat (repeat s_zero (Z.to_nat vector_dim))
          (Z.to_nat (n - vectors_output_offset st)).

(** [full] batches of exactly [C] frames each, then at most one shorter
    batch holding the remaining [k mod C] frames. *)
Definition batched (k : nat) (batches : list (tensor2 T)) : Prop :=
  exists full rest : list (tensor2 T),
    batches = full ++ rest /\
    Forall (fun b => zlen b = number_of_chunks self) full /\
    zlen full = Z.of_nat k / number_of_chunks self /\
    ((rest = [] /\ Z.of_nat k mod number_of_chunks self = 0) \/
     (exists b, rest = [b] /\ zlen b = Z.of_nat k mod number_of_chunks self /\
                 0 < Z.of_nat k mod number_of_chunks self)).

(** What line 194 and the aggregation give when the loop has run one pass
    less than the buffer has rows; [r] is the number of frames left for the
    partial batch and [embeddings] what the adapter returned so far.  No
    frame left: the last row of the buffer stays zero.  One frame left: its
    embedding is broadcast to the last two rows.  More: the shapes differ. *)
Definition overrun_outcome (r : Z) (embeddings : tensor2 T) : outcome (tensor1 T * Z) :=
  let result (buffer : tensor2 T) :=
    Ok (aggregate vector_dim buffer, count_nan (aggregate vector_dim buffer)) in
  if r =? 0 then result (embeddings ++ [repeat s_zero (Z.to_nat vector_dim)])
  else if r =? 1 then result (embeddings ++ [last embeddings []])
  else Raise RuntimeError.

(** The number of passes through the [while] for a waveform. *)
Definition loop_passes (signal : tensor1 T) : Z :=
  if window_length <? zlen signal
  then (zlen signal - window_length - 1) / window_shift + 1
  else 0.

End Engine.

(** ** Two scalar instances *)

(** IEEE-754 single precision, the element type of [.float()] tensors:
    24 bits of precision, exponents below 128, round to nearest even. *)
Definition is_nan (x : spec_float) : bool :=
  match x with S754_nan => true | _ => false end.

#[export] Instance binary32 : Scalar spec_float := {|
  s_zero := S754_zero false;
  s_add := SFadd 24 128;
  s_mul := SFmul 24 128;
  s_div := SFdiv 24 128;
  s_sqrt := SFsqrt 24 128;
  s_abs := SFabs;
  s_of_Z := fun n => binary_normalize 24 128 n 0 false;
  s_isnan := is_nan
|}.

(** Exact arithmetic over the reals; there is no NaN. *)
Definition exact_real : Scalar R := {|
  s_zero := 0%R;
  s_add := Rplus;
  s_mul := Rmult;
  s_div := Rdiv;
  s_sqrt := sqrt;
  s_abs := Rabs;
  s_of_Z := IZR;
  s_isnan := fun _ => false
|}.

(** ** Mock adapters and sample configurations for closed evaluations *)

Definition f32 (n : Z) : spec_float := binary_normalize 24 128 n 0 false.

(** The embedding of a frame is its first two samples. *)
Definition head2_net (batch : tensor2 spec_float) : tensor2 spec_float :=
  map (firstn 2) batch.

(** Every frame is mapped to the same embedding. *)
Definition const_net (e : tensor1 spec_float) (batch : tensor2 spec_float) : tensor2 spec_float :=
  map (fun _ => e) batch.

Definition engine (chunks : Z) (f : tensor2 spec_float -> tensor2 spec_float) : DeepDream :=
  {| layer_name := "first"; verbose := true; number_of_chunks := chunks;
     use_gpu := false; net := f |}.

(** A waveform [1, 2, ..., n]. *)
Definition ramp (n : nat) : tensor1 spec_float :=
  map (fun i => f32 (Z.of_nat i)) (seq 1 n).

(** Two waveforms that both hold frames. *)
Definition two_waveforms : list (tensor1 spec_float * Z) :=
  [(ramp 5, 16000); (ramp 7, 8000)].

Definition outputs {A : Type} (r : outcome (list A)) : list A :=
  match r with Ok out => out | _ => [] end.

(** Two frame embeddings of two coordinates. *)
Definition two_embeddings : tensor2 spec_float := [[f32 3; f32 4]; [f32 1; f32 0]].

(** A loader that always succeeds. *)
Definition mock_loader (model_path : string) (gpu : bool)
  : outcome (tensor2 spec_float -> tensor2 spec_float) := Ok head2_net.

(** An all-zero waveform of 360 samples. *)
Definition zero_waveform : tensor1 spec_float := repeat (S754_zero false) 360.

(** The single-precision value [2^-100]; its square underflows to zero. *)
Definition tiny : spec_float := S754_finite false 8388608 (-123).

(** ** The data loader, the pipeline and the layer names *)

(** What [np.max] needs of the sample type: [s_max] is the
    NaN-propagating maximum of two samples. *)
Class Magnitude (T : Type) : Type := {
  s_max : T -> T -> T
}.

Inductive loader_exn : Type :=
| SoundFileError
| ValueError.

Inductive loaded (A : Type) : Type :=
| Loaded (a : A)
| LoadRaise (e : loader_exn).

Arguments Loaded {A} a.
Arguments LoadRaise {A} e.

(** [np.max(a)]: the maximum of a non-empty array; on an empty one numpy
    raises a ValueError. *)
Definition np_max {T : Type} `{Magnitude T} (a : list T) : option T :=
  match a with
  | [] => None
  | x :: rest => Some (fold_left s_max rest x)
  end.

Section DataLoader.
Context {T : Type} `{Scalar T} `{Magnitude T}.

(** [sf.read]: the samples of a (mono) file and its sample rate, or an
    error of the sound file library. *)
Variable sf_read : string -> option (tensor1 T * Z).

(** Line 65: [signal / np.max(np.abs(signal))] *)
Definition amplitude_normalization (signal : tensor1 T) : loaded (tensor1 T) :=
  match np_max (map s_abs signal) with
  | None => LoadRaise ValueError
  | Some peak => Loaded (map (fun v => s_div v peak) signal)
  end.

(** Lines 61-66: the [for] of [DataLoader.transform], with the list
    [output] built so far. *)
Fixpoint loader_loop (x : list string) (output : list (tensor1 T * Z))
  : loaded (list (tensor1 T * Z)) :=
  match x with
  | [] => Loaded output
  | file_name :: rest =>
      match sf_read file_name with
      | None => LoadRaise SoundFileError
      | Some (signal, sample_rate) =>
          match amplitude_normalization signal with
          | LoadRaise e => LoadRaise e
          | Loaded normalized => loader_loop rest (output ++ [(normalized, sample_rate)])
          end
      end
  end.

(** [DataLoader.transform] (lines 59-67) *)
Definition data_loader_transform (x : list string) : loaded (list (tensor1 T * Z)) :=
  loader_loop x [].

(** What the loader returns for one file: the samples [sf.read] gives,
    which are not none, each divided by their largest magnitude, with the
    sample rate [sf.read] gives. *)
Definition loads (file_name : string) (pair : tensor1 T * Z) : Prop :=
  exists (signal : tensor1 T) (peak : T),
    sf_read file_name = Some (signal, snd pair) /\
    signal <> [] /\
    np_max (map s_abs signal) = Some peak /\
    fst pair = map (fun v => s_div v peak) signal.

End DataLoader.

Section Pipeline.
Context {T64 T : Type} `{Scalar T64} `{Magnitude T64} `{Scalar T}.
Variables (window_length window_shift vector_dim : Z).
Variable sf_read : string -> option (tensor1 T64 * Z).

(** [.float()] of line 152, from the samples the loader computes to the
    elements of the tensors. *)
Variable to_float : T64 -> T.

(** [Pipeline.transform] on the two steps of [get_processing_pipeline]
    (lines 215-223): the output of the data loader is the input of
    [DeepDream.transform]. *)
Definition pipeline_transform (deep_dream : DeepDream) (x : list string)
  : list (event T) -> list (event T) * loaded (outcome (list (option (tensor1 T) * Z))) :=
  fun tr =>
    match data_loader_transform sf_read x with
    | LoadRaise e => (tr, LoadRaise e)
    | Loaded pairs =>
        let '(tr', result) :=
          transform window_length window_shift vector_dim deep_dream
            (map (fun p => (map to_float (fst p), snd p)) pairs) tr in
        (tr', Loaded result)
    end.

(** [torch.load] and the two [load_state_dict] calls, and the default of
    [number_of_chunks], which the module [constants] holds. *)
Variable load_model : string -> bool -> outcome (tensor2 T -> tensor2 T).
Variable DEFAULT_NUMBER_OF_CHUNKS : Z.

(** [get_processing_pipeline] (lines 214-223): the engine is built when
    the pipeline is. *)
Definition get_processing_pipeline (model_path : string) : M T DeepDream :=
  init load_model "first" model_path DEFAULT_NUMBER_OF_CHUNKS false true.

(** [main] (lines 226-234) after the arguments are parsed, up to the value
    it prints. *)
Definition main (model_path file_path : string)
  : list (event T) -> list (event T) * loaded (outcome (list (option (tensor1 T) * Z))) :=
  fun tr =>
    match get_processing_pipeline model_path tr with
    | (tr1, Ok pipe) => pipeline_transform pipe [file_path] tr1
    | (tr1, Raise e) => (tr1, Loaded (Raise e))
    | (tr1, Diverge) => (tr1, Loaded Diverge)
    end.

End Pipeline.

(** [str(i)] for a natural number. *)
Definition str_of_nat (i : nat) : string := NilEmpty.string_of_uint (Nat.to_uint i).

(** Lines 132-136 and 138-142: the names [f"{prefix}{i}"] given to the
    [count] activation layers of one network, in the order of
    [enumerate]. *)
Definition layer_names (prefix : string) (count : nat) : list string :=
  map (fun i => (prefix ++ str_of_nat i)%string) (seq 0 count).

(** [_available_layer_names] after [_load_model], for networks with
    [conv_layers] and [dense_layers] activation layers. *)
Definition available_layer_names (conv_layers dense_layers : nat) : list string :=
  layer_names "conv_" conv_layers ++ layer_names "dense_" dense_layers.

(** Double precision, the sample type of [sf.read], and its magnitudes. *)
Definition binary64 : Scalar spec_float := {|
  s_zero := S754_zero false;
  s_add := SFadd 53 1024;
  s_mul := SFmul 53 1024;
  s_div := SFdiv 53 1024;
  s_sqrt := SFsqrt 53 1024;
  s_abs := SFabs;
  s_of_Z := fun n => binary_normalize 53 1024 n 0 false;
  s_isnan := is_nan
|}.

Definition float_max (x y : spec_float) : spec_float :=
  match SFcompare x y with
  | Some Lt => y
  | Some _ => x
  | None => S754_nan
  end.

(** [.float()] on a double: rounding to single precision. *)
Definition float_of_double (x : spec_float) : spec_float :=
  match x with
  | S754_finite s m e => binary_normalize 24 128 (cond_Zopp s (Zpos m)) e s
  | _ => x
  end.

Definition float_magnitude : Magnitude spec_float := {|
  s_max := float_max
|}.

Definition real_magnitude : Magnitude R := {|
  s_max := Rmax
|}.

(** A directory of three files: a ramp, a silent one, an empty one. *)
Definition sample_files (file_name : string) : option (tensor1 spec_float * Z) :=
  if String.eqb file_name "ramp.wav" then Some ([f32 1; f32 2; f32 4; f32 2; f32 1], 16000)
  else if String.eqb file_name "silence.wav" then Some (repeat (S754_zero false) 4, 8000)
  else if String.eqb file_name "empty.wav" then Some ([], 44100)
  else None.

(** Lines 50-51: [int(sampling_rate * config_window / 1000.00)], the
    number of samples in a window given in milliseconds.  The product is an
    exact integer and [int] rounds the quotient towards zero. *)
Definition samples_of_ms (sampling_rate config_window : Z) : Z :=
  Z.quot (sampling_rate * config_window) 1000.

(** A computation whose loop always ends. *)
Definition halts {T A : Type} (m : M T A) : Prop :=
  forall tr : list (event T), snd (m tr) <> Diverge.

(** ** Basic facts about the effect monad and the orchestrating loop *)

Section Orchestrator.
Context {T : Type} `{Scalar T}.
Variables (window_length window_shift vector_dim : Z).
Variable self : DeepDream (T := T).

Local Abbreviation process := (process_waveform window_length window_shift vector_dim self).
Local Abbreviation floop := (for_loop window_length window_shift vector_dim self).
Local Abbreviation run := (transform window_length window_shift vector_dim self).

Lemma for_loop_app (x y : list (tensor1 T * Z)) (b : option locals) (tr : list (event T)) :
  floop (x ++ y) b tr =
  match floop x b tr with
  | (tr', Ok b') => floop y b' tr'
  | (tr', Raise e) => (tr', Raise e)
  | (tr', Diverge) => (tr', Diverge)
  end.
Proof.
  revert b tr; induction x as [|[signal rate] x IH]; intros b tr; simpl.
  - reflexivity.
  - unfold bind. destruct (process signal tr) as [tr1 [r| e |]]; auto.
Qed.

Lemma for_loop_bound (x : list (tensor1 T * Z)) (b b' : option locals) (tr tr' : list (event T)) :
  floop x b tr = (tr', Ok b') -> x <> [] -> exists l, b' = Some l.
Proof.
  revert b tr; induction x as [|[signal rate] x IH]; intros b tr Hrun Hne.
  - contradiction.
  - simpl in Hrun. unfold bind in Hrun.
    destruct (process signal tr) as [tr1 [r| e |]]; try discriminate.
    destruct x as [|p x].
    + simpl in Hrun. unfold ret in Hrun. inversion Hrun; eauto.
    + eapply IH; [exact Hrun | discriminate].
Qed.

(** Whatever the input, a call that returns hands back exactly one pair. *)
Lemma transform_returns_one (x : list (tensor1 T * Z)) (tr tr' : list (event T))
  (out : list (option (tensor1 T) * Z)) :
  run x tr = (tr', Ok out) -> length out = 1%nat.
Proof.
  unfold transform, bind. destruct (floop x None tr) as [tr1 [[l|]| e |]]; try discriminate.
  destruct (l_nan_sum l >? 0).
  - unfold emit, ret. intros Heq; inversion Heq; reflexivity.
  - unfold ret. intros Heq; inversion Heq; reflexivity.
Qed.

Lemma count_nan_pos (p : tensor1 T) :
  (count_nan p >? 0) = existsb s_isnan p.
Proof.
  unfold count_nan, zlen. induction p as [|a p IH]; simpl; [reflexivity|].
  destruct (s_isnan a); simpl.
  - apply Z.gtb_lt. lia.
  - exact IH.
Qed.

End Orchestrator.

(** ** The aggregator *)

Section Aggregator.
Context {T : Type} `{Scalar T}.

Lemma div_broadcast_own_norm (m : tensor2 T) :
  div_broadcast m (view_column (norm_p2_dim1 m)) = map normalize_frame m.
Proof.
  induction m as [|row m IH]; simpl; [reflexivity|].
  f_equal. exact IH.
Qed.

Lemma nth_add_rows (a b : tensor1 T) (j : nat) :
  (j < length a)%nat -> (j < length b)%nat ->
  nth j (add_rows a b) s_zero = s_add (nth j a s_zero) (nth j b s_zero).
Proof.
  revert b j; induction a as [|x a IH]; intros [|y b] [|j] Ha Hb; simpl in *; try lia.
  - reflexivity.
  - apply IH; lia.
Qed.

Lemma length_add_rows (a b : tensor1 T) :
  length (add_rows a b) = Nat.min (length a) (length b).
Proof.
  revert b; induction a as [|x a IH]; intros [|y b]; simpl; auto.
Qed.

Lemma list_as_nth (a : tensor1 T) :
  a = map (fun j => nth j a s_zero) (seq 0 (length a)).
Proof.
  induction a as [|x a IH]; simpl; [reflexivity|].
  f_equal. rewrite <- seq_shift, map_map. exact IH.
Qed.

Lemma fold_add_rows_columns (n : nat) (rows : tensor2 T) :
  Forall (fun r => length r = n) rows ->
  forall acc, length acc = n ->
  fold_left add_rows rows acc =
  map (fun j => fold_left s_add (map (fun e => nth j e s_zero) rows) (nth j acc s_zero))
      (seq 0 n).
Proof.
  induction 1 as [|r rows Hr Hrows IH]; intros acc Hacc; simpl.
  - subst n. apply list_as_nth.
  - rewrite IH by (rewrite length_add_rows; lia).
    apply map_ext_in. intros j Hj. apply in_seq in Hj.
    rewrite nth_add_rows by lia. reflexivity.
Qed.

Lemma nth_repeat_zero (n j : nat) : nth j (repeat (s_zero (T := T)) n) s_zero = s_zero.
Proof.
  revert j; induction n as [|n IH]; intros [|j]; simpl; auto.
Qed.

Lemma normalize_frame_length (e : tensor1 T) : length (normalize_frame e) = length e.
Proof. unfold normalize_frame. apply length_map. Qed.

Lemma aggregate_as_spec (width : Z) (vectors : tensor2 T) :
  Forall (fun e => length e = Z.to_nat width) vectors ->
  aggregate width vectors = utterance_embedding_spec width vectors.
Proof.
  intros Hw. unfold aggregate, mean_dim0, utterance_embedding_spec, coordinate_mean.
  rewrite div_broadcast_own_norm.
  rewrite (fold_add_rows_columns (Z.to_nat width)).
  - rewrite map_map. apply map_ext. intros j. unfold sum.
    rewrite nth_repeat_zero. reflexivity.
  - apply Forall_map. eapply Forall_impl; [|exact Hw].
    intros e He. simpl. rewrite normalize_frame_length. exact He.
  - apply repeat_length.
Qed.

(** *** Order of the frames *)

Lemma fold_left_permutation {A B : Type} (g : A -> B -> A) (l l' : list B) :
  (forall a x y, g (g a x) y = g (g a y) x) ->
  Permutation l l' -> forall a, fold_left g l a = fold_left g l' a.
Proof.
  intros Hg Hp. induction Hp as [|x l l' _ IH|x y l|l l' l'' _ IH1 _ IH2]; intros a; simpl.
  - reflexivity.
  - apply IH.
  - rewrite Hg. reflexivity.
  - rewrite IH1. apply IH2.
Qed.

Lemma add_rows_exchange :
  (forall x y : T, s_add x y = s_add y x) ->
  (forall x y z : T, s_add (s_add x y) z = s_add x (s_add y z)) ->
  forall a x y : tensor1 T, add_rows (add_rows a x) y = add_rows (add_rows a y) x.
Proof.
  intros Hc Ha a. induction a as [|u a IH]; intros [|v x] [|w y]; simpl; try reflexivity.
  f_equal; [|apply IH].
  rewrite Ha, (Hc v w), <- Ha. reflexivity.
Qed.

End Aggregator.

(** ** Indexing lemmas *)

Lemma py_clamp_in_range (len i : Z) : 0 <= i <= len -> py_clamp len i = i.
Proof.
  intros Hi. unfold py_clamp. destruct (i <? 0) eqn:E.
  - apply Z.ltb_lt in E. lia.
  - lia.
Qed.

Lemma slice_bounds_in_range (len a b : Z) :
  0 <= a <= b -> b <= len -> slice_bounds len a b = (Z.to_nat a, Z.to_nat b).
Proof.
  intros Ha Hb. unfold slice_bounds.
  rewrite !py_clamp_in_range by lia. f_equal. f_equal. lia.
Qed.

Lemma slice_in_range {A : Type} (l : list A) (a b : Z) :
  0 <= a <= b -> b <= zlen l ->
  slice l a b = firstn (Z.to_nat (b - a)) (skipn (Z.to_nat a) l).
Proof.
  intros Ha Hb. unfold slice. rewrite slice_bounds_in_range by assumption.
  f_equal. lia.
Qed.

Lemma slice_length {A : Type} (l : list A) (a b : Z) :
  0 <= a <= b -> b <= zlen l -> length (slice l a b) = Z.to_nat (b - a).
Proof.
  intros Ha Hb. rewrite slice_in_range by assumption.
  rewrite length_firstn, length_skipn. unfold zlen in Hb. lia.
Qed.

Lemma slice_prefix {A : Type} (l : list A) (b : Z) :
  0 <= b <= zlen l -> slice l 0 b = firstn (Z.to_nat b) l.
Proof.
  intros Hb. rewrite slice_in_range by lia. simpl. f_equal. lia.
Qed.

Lemma broadcast_to_same {A : Type} (n : nat) (src : list A) :
  length src = n -> broadcast_to n src = Some src.
Proof.
  intros Hn. unfold broadcast_to. rewrite (proj2 (Nat.eqb_eq _ _) Hn). reflexivity.
Qed.

Lemma all_some_same {A : Type} (n : nat) (rows : list (list A)) :
  Forall (fun r => length r = n) rows ->
  all_some (map (broadcast_to n) rows) = Some rows.
Proof.
  induction 1 as [|r rows Hr _ IH]; simpl; [reflexivity|].
  rewrite (broadcast_to_same n r Hr), IH. reflexivity.
Qed.

Lemma Forall_firstn_keep {A : Type} (P : A -> Prop) (n : nat) (l : list A) :
  Forall P l -> Forall P (firstn n l).
Proof.
  intros Hl. revert n. induction Hl as [|x l Hx _ IH]; intros [|n]; simpl; constructor; auto.
Qed.

Lemma Forall_skipn_keep {A : Type} (P : A -> Prop) (n : nat) (l : list A) :
  Forall P l -> Forall P (skipn n l).
Proof.
  intros Hl. revert n. induction Hl as [|x l Hx Hl IH]; intros [|n]; simpl; auto.
Qed.

Lemma adapter_calls_app {T : Type} (tr tr' : list (event T)) :
  adapter_calls (tr ++ tr') = adapter_calls tr ++ adapter_calls tr'.
Proof. unfold adapter_calls. apply flat_map_app. Qed.

Lemma adapter_calls_map {T : Type} (bs : list (tensor2 T)) :
  adapter_calls (map AdapterCall bs) = bs.
Proof.
  induction bs as [|b bs IH]; simpl; [reflexivity|]. f_equal. exact IH.
Qed.

Section TensorWrites.
Context {T : Type} `{Scalar T}.

Lemma zeros2_ok (r c : Z) :
  0 <= r -> 0 <= c ->
  zeros2 (T := T) r c = Ok (repeat (repeat s_zero (Z.to_nat c)) (Z.to_nat r)).
Proof.
  intros Hr Hc. unfold zeros2.
  destruct (r <? 0) eqn:E1; [apply Z.ltb_lt in E1; lia|].
  destruct (c <? 0) eqn:E2; [apply Z.ltb_lt in E2; lia|]. reflexivity.
Qed.

Lemma set_row_ok (width : Z) (dst : tensor2 T) (i : Z) (src : tensor1 T) :
  0 <= i < zlen dst -> length src = Z.to_nat width ->
  set_row width dst i src =
  Ok (firstn (Z.to_nat i) dst ++ src :: skipn (S (Z.to_nat i)) dst).
Proof.
  intros Hi Hw. unfold set_row.
  destruct (0 <=? i) eqn:E1; [|apply Z.leb_gt in E1; lia].
  destruct (i <? zlen dst) eqn:E2; [|apply Z.ltb_ge in E2; lia].
  simpl. rewrite broadcast_to_same by assumption. reflexivity.
Qed.

Lemma set_rows_ok (width : Z) (dst : tensor2 T) (a : Z) (src : tensor2 T) :
  0 <= a -> a + zlen src <= zlen dst ->
  Forall (fun r => length r = Z.to_nat width) src ->
  set_rows width dst a (a + zlen src) src =
  Ok (firstn (Z.to_nat a) dst ++ src ++ skipn (Z.to_nat (a + zlen src)) dst).
Proof.
  intros Ha Hb Hw. unfold set_rows.
  rewrite slice_bounds_in_range by (unfold zlen in *; lia).
  rewrite broadcast_to_same by (unfold zlen; lia).
  rewrite all_some_same by assumption. reflexivity.
Qed.

Lemma set_rows_length (dst src : tensor2 T) (a : Z) :
  0 <= a -> a + zlen src <= zlen dst ->
  zlen (firstn (Z.to_nat a) dst ++ src ++ skipn (Z.to_nat (a + zlen src)) dst) = zlen dst.
Proof.
  intros Ha Hb. unfold zlen in *.
  rewrite !length_app, length_firstn, length_skipn. lia.
Qed.

End TensorWrites.

(** ** The framing and batching loop *)

Section Loop.
Context {T : Type} `{Scalar T}.
Variables (window_length window_shift vector_dim : Z).
Variable self : DeepDream (T := T).

Hypothesis shift_pos : 0 < window_shift.
Hypothesis length_nonneg : 0 <= window_length.
Hypothesis dim_nonneg : 0 <= vector_dim.
Hypothesis chunks_pos : 0 < number_of_chunks self.
(** The adapter contract: on a batch of frames of [window_length] samples,
    one embedding of [vector_dim] coordinates per frame. *)
Hypothesis net_shape : forall batch : tensor2 T,
  Forall (fun f => length f = Z.to_nat window_length) batch ->
  length (net self batch) = length batch /\
  Forall (fun e => length e = Z.to_nat vector_dim) (net self batch).

Variable signal : tensor1 T.

Local Abbreviation body := (loop_body window_length window_shift vector_dim self signal).
Local Abbreviation loop := (fun fuel => while_loop window_length window_shift vector_dim self fuel signal).
Local Abbreviation frame_at := (frame window_length window_shift signal).
Local Abbreviation C := (number_of_chunks self).
Local Abbreviation inv := (loop_inv window_length window_shift vector_dim self signal).

Lemma frame_length (k : nat) :
  Z.of_nat k * window_shift + window_length <= zlen signal ->
  length (frame_at k) = Z.to_nat window_length.
Proof.
  intros Hk. unfold frame. rewrite slice_length by nia. f_equal. lia.
Qed.

Lemma rows_bound (k : nat) :
  Z.of_nat k * window_shift + window_length < zlen signal ->
  Z.of_nat k + 1 <= Z.quot (zlen signal - window_length + window_shift) window_shift.
Proof.
  intros Hk. rewrite Z.quot_div_nonneg by nia.
  apply Z.div_le_lower_bound; nia.
Qed.

Lemma firstn_write {A : Type} (l : list A) (i : nat) (x : A) :
  (i < length l)%nat ->
  firstn (S i) (firstn i l ++ x :: skipn (S i) l) = firstn i l ++ [x].
Proof.
  intros Hi.
  assert (Hlen : length (firstn i l) = i) by (rewrite length_firstn; lia).
  rewrite firstn_app, Hlen.
  replace (S i - i)%nat with 1%nat by lia.
  rewrite firstn_all2 by lia. reflexivity.
Qed.

Lemma firstn_two {A : Type} (a b c : list A) (m : nat) :
  m = (length a + length b)%nat -> firstn m (a ++ b ++ c) = a ++ b.
Proof.
  intros ->. rewrite app_assoc, <- length_app.
  rewrite <- (Nat.add_0_r (length (a ++ b))), firstn_app_2. simpl. apply app_nil_r.
Qed.

Lemma skipn_repeat {A : Type} (x : A) (m n : nat) :
  skipn m (repeat x n) = repeat x (n - m).
Proof.
  revert n; induction m as [|m IH]; intros [|n]; simpl; auto.
Qed.

Lemma write_length {A : Type} (l : list A) (i : nat) (x : A) :
  (i < length l)%nat -> length (firstn i l ++ x :: skipn (S i) l) = length l.
Proof.
  intros Hi. rewrite length_app, length_firstn. cbn [length]. rewrite length_skipn. lia.
Qed.

Ltac fields :=
  cbn [beginning_of_sample end_of_sample frame_count vectors_output_offset
       signal_array vectors] in *.

Lemma forward_run (batch : tensor2 T) (tr : list (event T)) :
  forward self batch tr = (tr ++ [AdapterCall batch], Ok (net self batch)).
Proof. reflexivity. Qed.

Lemma loop_body_step (n : Z) (tr0 : list (event T)) (k : nat) (st : loop_state)
  (tr : list (event T)) :
  n = Z.quot (zlen signal - window_length + window_shift) window_shift ->
  inv n tr0 k st tr ->
  end_of_sample st < zlen signal ->
  exists st' tr', body st tr = (tr', Ok st') /\ inv n tr0 (S k) st' tr'.
Proof.
  intros Hn (Hb & He & calls & Htr & Hfull & Hfc & Hk & Hoff & Hsa & Hwid & Hcat & Hv & Hemb & Hzero) Hlt.
  rewrite He in Hlt.
  assert (Hfl : length (frame_at k) = Z.to_nat window_length)
    by (apply frame_length; lia).
  pose proof (rows_bound k Hlt) as Hrows.
  assert (Hoff0 : 0 <= vectors_output_offset st)
    by (rewrite Hoff; apply Z.mul_nonneg_nonneg; unfold zlen; lia).
  assert (Hi : (Z.to_nat (frame_count st) < length (signal_array st))%nat)
    by (unfold zlen in Hsa; lia).
  set (sa := firstn (Z.to_nat (frame_count st)) (signal_array st)
             ++ frame_at k :: skipn (S (Z.to_nat (frame_count st))) (signal_array st)).
  assert (Hsa' : zlen sa = C)
    by (unfold sa, zlen; rewrite write_length by exact Hi; exact Hsa).
  assert (Hwid' : Forall (fun f => length f = Z.to_nat window_length) sa).
  { unfold sa. apply Forall_app. split; [apply Forall_firstn_keep; exact Hwid|].
    constructor; [exact Hfl | apply Forall_skipn_keep; exact Hwid]. }
  assert (Hpre : firstn (S (Z.to_nat (frame_count st))) sa
                 = firstn (Z.to_nat (frame_count st)) (signal_array st) ++ [frame_at k])
    by (apply firstn_write; exact Hi).
  assert (Hseq : map frame_at (seq 0 (S k)) = map frame_at (seq 0 k) ++ [frame_at k])
    by (rewrite seq_S, map_app; reflexivity).
  unfold loop_body, bind, lift. rewrite Hb, He.
  change (slice signal (Z.of_nat k * window_shift)
            (Z.of_nat k * window_shift + window_length)) with (frame_at k).
  rewrite set_row_ok by (try exact Hfl; lia). fold sa.
  destruct (frame_count st + 1 =? C) eqn:Efull.
  - apply Z.eqb_eq in Efull.
    rewrite forward_run.
    destruct (net_shape sa Hwid') as [Hrowsn Hcols].
    assert (Hout : zlen (net self sa) = zlen sa) by (unfold zlen; lia).
    rewrite <- Hout.
    rewrite set_rows_ok by (try exact Hcols; lia).
    rewrite zeros2_ok by lia. unfold ret.
    eexists _, _. split; [reflexivity|].
    split; [fields; lia|]. split; [fields; lia|].
    exists (calls ++ [sa]). fields.
    assert (Hzl : zlen (calls ++ [sa]) = zlen calls + 1)
      by (unfold zlen; rewrite length_app; simpl; lia).
    repeat split.
    + rewrite Htr, map_app, <- app_assoc. reflexivity.
    + apply Forall_app. split; [exact Hfull|]. constructor; [exact Hsa'|constructor].
    + lia.
    + lia.
    + rewrite Hzl. lia.
    + rewrite Hzl. lia.
    + unfold zlen. rewrite repeat_length. lia.
    + apply Forall_forall. intros f Hf. apply repeat_spec in Hf. subst f.
      apply repeat_length.
    + rewrite Hseq, <- Hcat, concat_app.
      change (Z.to_nat 0) with 0%nat. cbn [firstn concat]. rewrite !app_nil_r.
      rewrite <- app_assoc, <- Hpre. f_equal.
      symmetry. apply firstn_all2. unfold zlen in Hsa'. lia.
    + rewrite set_rows_length by lia. exact Hv.
    + rewrite map_app, concat_app. cbn [map concat]. rewrite app_nil_r, <- Hemb.
      apply firstn_two. rewrite length_firstn. unfold zlen in *. lia.
    + rewrite app_assoc, skipn_app.
      rewrite (skipn_all2 (firstn _ _ ++ _))
        by (rewrite length_app, length_firstn; unfold zlen in *; lia).
      rewrite length_app, length_firstn. cbn [app].
      replace (Z.to_nat (vectors_output_offset st + zlen (net self sa))
               - (Nat.min (Z.to_nat (vectors_output_offset st)) (length (vectors st))
                  + length (net self sa)))%nat with 0%nat by (unfold zlen in *; lia).
      cbn [skipn].
      replace (Z.to_nat (vectors_output_offset st + zlen (net self sa)))
        with (Z.to_nat (zlen (net self sa)) + Z.to_nat (vectors_output_offset st))%nat
        by (unfold zlen in *; lia).
      rewrite <- skipn_skipn, Hzero, skipn_repeat. f_equal. unfold zlen in *. lia.
  - apply Z.eqb_neq in Efull. unfold ret.
    eexists _, _. split; [reflexivity|].
    split; [fields; lia|]. split; [fields; lia|].
    exists calls. fields. repeat split; try assumption; try lia.
    replace (Z.to_nat (frame_count st + 1)) with (S (Z.to_nat (frame_count st))) by lia.
    rewrite Hpre, app_assoc, Hcat, Hseq. reflexivity.
Qed.

Lemma while_loop_exit (fuel : nat) (st : loop_state) (tr : list (event T)) :
  zlen signal <= end_of_sample st -> loop fuel st tr = (tr, Ok st).
Proof.
  intros Hge. destruct fuel; simpl;
    (destruct (end_of_sample st <? zlen signal) eqn:E;
     [apply Z.ltb_lt in E; lia | reflexivity]).
Qed.

Lemma while_loop_run (n : Z) (tr0 : list (event T)) :
  n = Z.quot (zlen signal - window_length + window_shift) window_shift ->
  forall (fuel k : nat) (st : loop_state) (tr : list (event T)),
  inv n tr0 k st tr ->
  zlen signal - end_of_sample st <= Z.of_nat fuel ->
  exists (k' : nat) (st' : loop_state) (tr' : list (event T)),
    loop fuel st tr = (tr', Ok st') /\ inv n tr0 k' st' tr' /\
    zlen signal <= Z.of_nat k' * window_shift + window_length /\
    (k' = k \/
     (k <= k')%nat /\ (Z.of_nat k' - 1) * window_shift + window_length < zlen signal).
Proof.
  intros Hn. induction fuel as [|fuel IH]; intros k st tr Hinv Hfuel.
  - exists k, st, tr. pose proof Hinv as (_ & He & _).
    rewrite while_loop_exit by lia.
      split; [reflexivity|]. split; [exact Hinv|]. split; [lia|]. left; reflexivity.
  - destruct (Z.lt_ge_cases (end_of_sample st) (zlen signal)) as [Hlt|Hge].
    + destruct (loop_body_step n tr0 k st tr Hn Hinv Hlt) as (st1 & tr1 & Hstep & Hinv1).
      pose proof Hinv as (_ & He & _). pose proof Hinv1 as (_ & He1 & _).
      destruct (IH (S k) st1 tr1 Hinv1 ltac:(nia)) as (k' & st' & tr' & Hrun & Hinv' & Hend & Hk').
      exists k', st', tr'. split.
      * simpl. apply Z.ltb_lt in Hlt. rewrite Hlt. unfold bind. rewrite Hstep. exact Hrun.
      * split; [exact Hinv'|]. split; [exact Hend|]. right.
        destruct Hk' as [->|[Hle Hlast]]; [split; [lia|]|split; [lia|exact Hlast]].
        replace (Z.of_nat (S k) - 1) with (Z.of_nat k) by lia. lia.
    + exists k, st, tr. pose proof Hinv as (_ & He & _).
      rewrite while_loop_exit by lia.
      split; [reflexivity|]. split; [exact Hinv|]. split; [lia|]. left; reflexivity.
Qed.

Lemma process_waveform_trace (tr0 : list (event T)) :
  exists (batches : list (tensor2 T)) (k : nat),
    fst (process_waveform window_length window_shift vector_dim self signal tr0)
      = tr0 ++ map AdapterCall batches /\
    concat batches = map frame_at (seq 0 k) /\
    Z.of_nat k = loop_passes window_length window_shift signal /\
    batched self k batches /\
    (Z.of_nat k = Z.quot (zlen signal - window_length + window_shift) window_shift ->
     process_waveform window_length window_shift vector_dim self signal tr0
     = (tr0 ++ map AdapterCall batches,
        Ok (aggregate vector_dim (concat (map (net self) batches)),
            count_nan (aggregate vector_dim (concat (map (net self) batches)))))) /\
    (Z.of_nat k + 1 = Z.quot (zlen signal - window_length + window_shift) window_shift ->
     process_waveform window_length window_shift vector_dim self signal tr0
     = (tr0 ++ map AdapterCall batches,
        overrun_outcome vector_dim (Z.of_nat k mod C)
          (concat (map (net self) batches)))).
Proof.
  remember (process_waveform window_length window_shift vector_dim self signal tr0)
    as r eqn:Hr.
  unfold process_waveform, number_of_frames in Hr. unfold loop_passes.
  destruct (window_shift =? 0) eqn:E0; [apply Z.eqb_eq in E0; lia|clear E0].
  unfold bind at 1 in Hr. unfold lift at 1 in Hr.
  unfold bind at 1 in Hr. rewrite zeros2_ok in Hr by lia. unfold lift at 1 in Hr.
  set (n := Z.quot (zlen signal - window_length + window_shift) window_shift) in *.
  destruct (window_length <? zlen signal) eqn:EL.
  - apply Z.ltb_lt in EL.
    assert (Hn : 1 <= n) by (pose proof (rows_bound 0%nat); unfold n; simpl in *; lia).
    unfold bind at 1 in Hr. rewrite zeros2_ok in Hr by lia. unfold lift at 1 in Hr.
    set (st0 := {| beginning_of_sample := 0; end_of_sample := window_length;
                   frame_count := 0; vectors_output_offset := 0;
                   signal_array := repeat (repeat s_zero (Z.to_nat window_length))
                                     (Z.to_nat C);
                   vectors := repeat (repeat s_zero (Z.to_nat vector_dim)) (Z.to_nat n) |})
      in Hr.
    assert (Hinv0 : inv n tr0 0 st0 tr0).
    { split; [reflexivity|]. split; [reflexivity|]. exists []. unfold st0. fields.
      repeat split; try (simpl; lia).
      - simpl. rewrite app_nil_r. reflexivity.
      - constructor.
      - unfold zlen. rewrite repeat_length. lia.
      - apply Forall_forall. intros f Hf. apply repeat_spec in Hf. subst f.
        apply repeat_length.
      - unfold zlen. rewrite repeat_length. lia.
      - change (Z.to_nat 0) with 0%nat. cbn [skipn]. f_equal. lia. }
    destruct (while_loop_run n tr0 eq_refl (length signal) 0%nat st0 tr0 Hinv0)
      as (k & st & tr & Hrun & Hinv & Hend & Hk).
    { unfold st0, zlen. fields. lia. }
    destruct Hinv
      as (Hb & He & calls & Htr & Hfull & Hfc & Hkq & Hoff & Hsa & Hwid & Hcat & Hv & Hemb
          & Hzero).
    assert (Hkpos : (0 < k)%nat) by (destruct k; [simpl in Hend; lia | lia]).
    assert (Hlast : (Z.of_nat k - 1) * window_shift + window_length < zlen signal)
      by (destruct Hk as [->|[_ Hl]]; [lia | exact Hl]).
    assert (Hcount : Z.of_nat k = (zlen signal - window_length - 1) / window_shift + 1).
    { assert ((zlen signal - window_length - 1) / window_shift = Z.of_nat k - 1); [|lia].
      symmetry.
      apply (Z.div_unique _ _ _
               (zlen signal - window_length - 1 - (Z.of_nat k - 1) * window_shift)); lia. }
    assert (Hq : zlen calls = Z.of_nat k / C)
      by (apply (Z.div_unique _ _ _ (frame_count st)); lia).
    assert (Hr' : frame_count st = Z.of_nat k mod C)
      by (apply (Z.mod_unique _ _ (zlen calls)); lia).
    assert (Hoff0 : 0 <= vectors_output_offset st)
      by (rewrite Hoff; apply Z.mul_nonneg_nonneg; unfold zlen; lia).
    unfold bind at 1 in Hr. rewrite Hrun in Hr.
    destruct (frame_count st >? 0) eqn:Efc.
    + apply Z.gtb_lt in Efc.
      set (b := firstn (Z.to_nat (frame_count st)) (signal_array st)).
      assert (Hblen : zlen b = frame_count st)
        by (unfold b, zlen in *; rewrite length_firstn; lia).
      assert (Hbw : Forall (fun f => length f = Z.to_nat window_length) b)
        by (apply Forall_firstn_keep; exact Hwid).
      destruct (net_shape b Hbw) as [Hrowsn Hcols].
      unfold bind at 1 in Hr. unfold bind at 1 in Hr. rewrite forward_run in Hr.
      rewrite slice_prefix in Hr by lia. fold b in Hr. unfold lift at 1 in Hr.
      exists (calls ++ [b]), k.
      split; [|split; [|split; [|split; [|split]]]].
      * rewrite Hr, Htr, map_app, <- app_assoc.
        destruct (set_rows _ _ _ _ _); reflexivity.
      * rewrite concat_app. simpl. rewrite app_nil_r. exact Hcat.
      * exact Hcount.
      * exists calls, [b].
        split; [reflexivity|]. split; [exact Hfull|]. split; [exact Hq|]. right.
        exists b. split; [reflexivity|]. split; lia.
      * intros Hkn.
        assert (Hout : zlen (net self b) = zlen b) by (unfold zlen; lia).
        replace (zlen (vectors st))
          with (vectors_output_offset st + zlen (net self b)) in Hr by lia.
        rewrite set_rows_ok in Hr by (try exact Hcols; lia).
        unfold ret in Hr.
        rewrite skipn_all2 in Hr by (unfold zlen in *; lia).
        rewrite app_nil_r, Hemb in Hr.
        rewrite Hr, Htr, !map_app, concat_app, <- app_assoc.
        cbn [map concat]. rewrite app_nil_r. reflexivity.
      * intros Hkn. rewrite <- Hr'. unfold overrun_outcome.
        destruct (frame_count st =? 0) eqn:E0; [apply Z.eqb_eq in E0; lia|clear E0].
        assert (Hgap : (Z.to_nat (zlen (vectors st)) - Z.to_nat (vectors_output_offset st))%nat
                       = S (length (net self b))) by (unfold zlen in *; lia).
        unfold set_rows in Hr.
        rewrite slice_bounds_in_range in Hr by lia. rewrite Hgap in Hr.
        rewrite Hr, Htr, !map_app, concat_app, <- app_assoc. cbn [map concat app].
        rewrite app_nil_r. unfold broadcast_to at 1.
        rewrite (proj2 (Nat.eqb_neq _ _) (Nat.neq_succ_diag_r _)).
        destruct (frame_count st =? 1) eqn:E1.
        -- apply Z.eqb_eq in E1.
           destruct (net self b) as [|e [|e' out]] eqn:Eout;
             try (unfold zlen in *; simpl in *; lia).
           inversion Hcols as [|? ? Hew _]; subst.
           cbn [length repeat map all_some]. rewrite (broadcast_to_same _ e Hew).
           unfold ret. rewrite skipn_all2 by (unfold zlen in *; lia).
           rewrite app_nil_r, Hemb, last_last, <- app_assoc. reflexivity.
        -- apply Z.eqb_neq in E1.
           destruct (net self b) as [|e [|e' out]] eqn:Eout;
             try (unfold zlen in *; simpl in *; lia).
           reflexivity.
    + rewrite Z.gtb_ltb in Efc. apply Z.ltb_ge in Efc.
      assert (Hz : frame_count st = 0) by lia.
      unfold bind, ret in Hr. simpl in Hr.
      exists calls, k. split; [|split; [|split; [|split; [|split]]]].
      * rewrite Hr. exact Htr.
      * rewrite Hz in Hcat. simpl in Hcat. rewrite app_nil_r in Hcat. exact Hcat.
      * exact Hcount.
      * exists calls, []. split; [rewrite app_nil_r; reflexivity|].
        split; [exact Hfull|]. split; [exact Hq|]. left. split; [reflexivity|lia].
      * intros Hkn. rewrite Hr, Htr. f_equal.
        assert (Hall : vectors st = concat (map (net self) calls)).
        { rewrite <- Hemb. symmetry. apply firstn_all2. unfold zlen in *. lia. }
        rewrite Hall. reflexivity.
      * intros Hkn. rewrite <- Hr', Hz. unfold overrun_outcome. cbn [Z.eqb].
        rewrite Hr, Htr. f_equal.
        assert (Hall : vectors st
                       = concat (map (net self) calls)
                         ++ [repeat s_zero (Z.to_nat vector_dim)]).
        { rewrite <- (firstn_skipn (Z.to_nat (vectors_output_offset st)) (vectors st)).
          rewrite Hemb, Hzero.
          replace (Z.to_nat (n - vectors_output_offset st)) with 1%nat by lia.
          reflexivity. }
        rewrite Hall. reflexivity.
  - apply Z.ltb_ge in EL. exists [], 0%nat.
    split; [|split; [|split; [|split; [|split]]]].
    + rewrite app_nil_r, Hr. unfold bind at 1. unfold lift at 1.
      destruct (zeros2 n vector_dim) as [v | e |]; try reflexivity.
      unfold bind at 1. rewrite while_loop_exit by (fields; lia).
      fields. unfold bind, ret. simpl. reflexivity.
    + reflexivity.
    + reflexivity.
    + exists [], []. split; [reflexivity|]. split; [constructor|].
      split; [rewrite Z.div_0_l by lia; reflexivity|]. left.
      split; [reflexivity|]. apply Z.mod_0_l. lia.
    + intros Hkn. rewrite app_nil_r, Hr. change (Z.of_nat 0) with 0 in Hkn.
      rewrite <- Hkn. unfold bind at 1. rewrite zeros2_ok by lia. unfold lift at 1.
      unfold bind at 1. rewrite while_loop_exit by (fields; lia).
      fields. unfold bind, ret. simpl. reflexivity.
    + intros Hkn. rewrite app_nil_r, Hr. change (Z.of_nat 0 + 1) with 1 in Hkn.
      rewrite <- Hkn. unfold bind at 1. rewrite zeros2_ok by lia. unfold lift at 1.
      unfold bind at 1. rewrite while_loop_exit by (fields; lia).
      fields. unfold bind, ret. rewrite Z.mod_0_l by lia. reflexivity.
Qed.

End Loop.

(** ** Independence of the log *)

Lemma appends_ret {T A : Type} (a : A) : appends (ret (T := T) a).
Proof. intros tr. unfold ret. simpl. rewrite app_nil_r. reflexivity. Qed.

Lemma appends_lift {T A : Type} (o : outcome A) : appends (lift (T := T) o).
Proof. intros tr. unfold lift. simpl. rewrite app_nil_r. reflexivity. Qed.

Lemma appends_emit {T : Type} (ev : event T) : appends (emit ev).
Proof. intros tr. reflexivity. Qed.

Lemma appends_bind {T A B : Type} (m : M T A) (k : A -> M T B) :
  appends m -> (forall a, appends (k a)) -> appends (bind m k).
Proof.
  intros Hm Hk tr. unfold bind. rewrite (Hm tr).
  destruct (m []) as [d [a| e |]]; simpl; try reflexivity.
  rewrite (Hk a (tr ++ d)), (Hk a d). simpl. rewrite app_assoc. reflexivity.
Qed.

Ltac appends_steps :=
  repeat first
    [ apply appends_ret | apply appends_lift | apply appends_emit
    | apply appends_bind; [|intros ?]
    | progress cbv zeta
    | match goal with |- appends (if ?c then _ else _) => destruct c end ].

Section LogIndependence.
Context {T : Type} `{Scalar T}.
Variables (window_length window_shift vector_dim : Z).
Variable self : DeepDream (T := T).

Lemma appends_forward (batch : tensor2 T) : appends (forward self batch).
Proof. unfold forward. appends_steps. Qed.

Lemma appends_loop_body (signal : tensor1 T) (st : loop_state) :
  appends (loop_body window_length window_shift vector_dim self signal st).
Proof. unfold loop_body. appends_steps; apply appends_forward. Qed.

Lemma appends_while_loop (fuel : nat) (signal : tensor1 T) (st : loop_state) :
  appends (while_loop window_length window_shift vector_dim self fuel signal st).
Proof.
  revert st; induction fuel as [|fuel IH]; intros st; cbn [while_loop]; appends_steps;
    first [apply IH | apply appends_loop_body | apply appends_forward].
Qed.

Lemma appends_process_waveform (signal : tensor1 T) :
  appends (process_waveform window_length window_shift vector_dim self signal).
Proof.
  unfold process_waveform. appends_steps;
    first [apply appends_while_loop | apply appends_forward].
Qed.

End LogIndependence.

(** ** Where the unbound variable can come from *)

Lemma avoids_ret {T A : Type} (e : exn) (a : A) : avoids e (ret (T := T) a).
Proof. intros tr. discriminate. Qed.

Lemma avoids_emit {T : Type} (e : exn) (ev : event T) : avoids e (emit ev).
Proof. intros tr. discriminate. Qed.

Lemma avoids_lift {T A : Type} (e : exn) (o : outcome A) :
  o <> Raise e -> avoids e (lift (T := T) o).
Proof. intros Ho tr. exact Ho. Qed.

Lemma avoids_bind {T A B : Type} (e : exn) (m : M T A) (k : A -> M T B) :
  avoids e m -> (forall a, avoids e (k a)) -> avoids e (bind m k).
Proof.
  intros Hm Hk tr. unfold bind. specialize (Hm tr).
  destruct (m tr) as [tr' [a| e' |]]; simpl in *.
  - apply Hk.
  - intros Heq. apply Hm. inversion Heq. reflexivity.
  - discriminate.
Qed.

Section Unbound.
Context {T : Type} `{Scalar T}.
Variables (window_length window_shift vector_dim : Z).
Variable self : DeepDream (T := T).

Lemma zeros2_bound (r c : Z) : zeros2 (T := T) r c <> Raise UnboundLocalError.
Proof. unfold zeros2. destruct ((r <? 0) || (c <? 0)); discriminate. Qed.

Lemma set_row_bound (width : Z) (dst : tensor2 T) (i : Z) (src : tensor1 T) :
  set_row width dst i src <> Raise UnboundLocalError.
Proof.
  unfold set_row. destruct ((0 <=? i) && (i <? zlen dst)); [|discriminate].
  destruct (broadcast_to (Z.to_nat width) src); discriminate.
Qed.

Lemma set_rows_bound (width : Z) (dst : tensor2 T) (a b : Z) (src : tensor2 T) :
  set_rows width dst a b src <> Raise UnboundLocalError.
Proof.
  unfold set_rows. destruct (slice_bounds (zlen dst) a b) as [lo hi].
  destruct (broadcast_to (hi - lo) src) as [rows|]; [|discriminate].
  destruct (all_some (map (broadcast_to (Z.to_nat width)) rows)); discriminate.
Qed.

Lemma number_of_frames_bound (len : Z) :
  number_of_frames window_length window_shift len <> Raise UnboundLocalError.
Proof. unfold number_of_frames. destruct (window_shift =? 0); discriminate. Qed.

Ltac avoids_steps :=
  repeat first
    [ apply avoids_ret | apply avoids_emit
    | apply avoids_lift;
      first [apply zeros2_bound | apply set_row_bound | apply set_rows_bound
            | apply number_of_frames_bound | discriminate]
    | apply avoids_bind; [|intros ?]
    | progress cbv zeta
    | match goal with |- avoids _ (if ?c then _ else _) => destruct c end ].

Lemma avoids_forward (batch : tensor2 T) : avoids UnboundLocalError (forward self batch).
Proof. unfold forward. avoids_steps. Qed.

Lemma avoids_loop_body (signal : tensor1 T) (st : loop_state) :
  avoids UnboundLocalError
    (loop_body window_length window_shift vector_dim self signal st).
Proof. unfold loop_body. avoids_steps; apply avoids_forward. Qed.

Lemma avoids_while_loop (fuel : nat) (signal : tensor1 T) (st : loop_state) :
  avoids UnboundLocalError
    (while_loop window_length window_shift vector_dim self fuel signal st).
Proof.
  revert st; induction fuel as [|fuel IH]; intros st; cbn [while_loop]; avoids_steps;
    first [apply IH | apply avoids_loop_body | apply avoids_forward].
Qed.

Lemma avoids_process_waveform (signal : tensor1 T) :
  avoids UnboundLocalError
    (process_waveform window_length window_shift vector_dim self signal).
Proof.
  unfold process_waveform. avoids_steps;
    first [apply avoids_while_loop | apply avoids_forward].
Qed.

Lemma avoids_for_loop (x : list (tensor1 T * Z)) (b : option locals) :
  avoids UnboundLocalError (for_loop window_length window_shift vector_dim self x b).
Proof.
  revert b; induction x as [|[signal rate] x IH]; intros b; cbn [for_loop].
  - apply avoids_ret.
  - apply avoids_bind; [apply avoids_process_waveform | intros r; apply IH].
Qed.

End Unbound.

(** ** What one waveform feeds to the adapter *)

Section Fed.
Context {T : Type} `{Scalar T}.
Variables (window_length window_shift vector_dim : Z).
Variable self : DeepDream (T := T).

Hypothesis shift_pos : 0 < window_shift.
Hypothesis length_nonneg : 0 <= window_length.
Hypothesis dim_nonneg : 0 <= vector_dim.
Hypothesis chunks_pos : 0 < number_of_chunks self.
Hypothesis net_shape : forall batch : tensor2 T,
  Forall (fun f => length f = Z.to_nat window_length) batch ->
  length (net self batch) = length batch /\
  Forall (fun e => length e = Z.to_nat vector_dim) (net self batch).

Variable signal : tensor1 T.

Local Abbreviation C := (number_of_chunks self).
Local Abbreviation fed := (frames_fed window_length window_shift vector_dim self signal).
Local Abbreviation batches := (batches_fed window_length window_shift vector_dim self signal).
Local Abbreviation passes := (loop_passes window_length window_shift signal).

Lemma loop_passes_nonneg : 0 <= passes.
Proof.
  unfold loop_passes. destruct (window_length <? zlen signal) eqn:E; [|lia].
  apply Z.ltb_lt in E.
  assert (0 <= (zlen signal - window_length - 1) / window_shift)
    by (apply Z.div_pos; lia).
  lia.
Qed.

Lemma fed_summary :
  fed = map (frame window_length window_shift signal) (seq 0 (Z.to_nat passes)) /\
  zlen fed = passes /\
  batched self (Z.to_nat passes) batches.
Proof.
  destruct (process_waveform_trace window_length window_shift vector_dim self
              shift_pos length_nonneg dim_nonneg chunks_pos net_shape signal [])
    as (bs & k & Htr & Hcat & Hk & Hb & _ & _).
  assert (Hbs : batches = bs).
  { unfold batches_fed. rewrite Htr. simpl. apply adapter_calls_map. }
  assert (Hkk : Z.to_nat passes = k) by lia.
  unfold frames_fed. rewrite Hbs, Hkk. split; [exact Hcat|]. split; [|exact Hb].
  rewrite Hcat. unfold zlen. rewrite length_map, length_seq. exact Hk.
Qed.

Lemma batched_count (k : nat) (bs : list (tensor2 T)) :
  batched self k bs -> zlen bs = (Z.of_nat k + C - 1) / C.
Proof.
  intros (full & rest & -> & _ & Hq & Hrest).
  pose proof (Z.div_mod (Z.of_nat k) C ltac:(lia)) as Hdm.
  pose proof (Z.mod_pos_bound (Z.of_nat k) C chunks_pos) as Hm.
  unfold zlen in *. rewrite length_app.
  destruct Hrest as [[-> Hz]|(b & -> & _ & Hpos)]; simpl.
  - apply (Z.div_unique _ _ _ (C - 1)); lia.
  - apply (Z.div_unique _ _ _ (Z.of_nat k mod C - 1)); lia.
Qed.

Lemma batched_full (k : nat) (bs : list (tensor2 T)) (j : nat) :
  batched self k bs -> Z.of_nat j < Z.of_nat k / C -> zlen (nth j bs []) = C.
Proof.
  intros (full & rest & -> & Hfull & Hq & _) Hj.
  unfold zlen in Hq.
  rewrite app_nth1 by lia.
  rewrite Forall_forall in Hfull. apply Hfull. apply nth_In. lia.
Qed.

Lemma batched_last (k : nat) (bs : list (tensor2 T)) :
  batched self k bs -> Z.of_nat k mod C <> 0 -> zlen (last bs []) = Z.of_nat k mod C.
Proof.
  intros (full & rest & -> & _ & _ & Hrest) Hne.
  destruct Hrest as [[_ Hz]|(b & -> & Hb & _)]; [contradiction|].
  rewrite last_last. exact Hb.
Qed.

Lemma fed_frames_width :
  Forall (fun f => length f = Z.to_nat window_length) fed.
Proof.
  destruct fed_summary as (Hfed & _ & _). rewrite Hfed.
  apply Forall_map, Forall_forall. intros i Hi. apply in_seq in Hi.
  pose proof loop_passes_nonneg as Hpos. revert Hi Hpos. unfold loop_passes.
  destruct (window_length <? zlen signal) eqn:E; [|simpl; lia].
  apply Z.ltb_lt in E. intros Hi Hpos.
  apply (frame_length window_length window_shift shift_pos length_nonneg signal i).
  pose proof (Z.mul_div_le (zlen signal - window_length - 1) window_shift shift_pos).
  nia.
Qed.

Lemma fed_embeddings_width :
  Forall (fun e => length e = Z.to_nat vector_dim) (concat (map (net self) batches)).
Proof.
  pose proof fed_frames_width as Hw. unfold frames_fed in Hw.
  induction batches as [|b bs IH]; simpl; [constructor|].
  simpl in Hw. apply Forall_app in Hw. destruct Hw as [Hb Hbs].
  apply Forall_app. split; [apply (net_shape b Hb) | apply IH; exact Hbs].
Qed.

Lemma fed_embeddings_length :
  length (concat (map (net self) batches)) = length fed.
Proof.
  pose proof fed_frames_width as Hw. unfold frames_fed in *.
  induction batches as [|b bs IH]; simpl; [reflexivity|].
  simpl in Hw. apply Forall_app in Hw. destruct Hw as [Hb Hbs].
  rewrite !length_app, (IH Hbs). f_equal. apply (net_shape b Hb).
Qed.

(** When the loop feeds as many frames as the buffer has rows, the
    predictions are the aggregation of the embeddings of the frames fed. *)
Lemma process_waveform_value (tr : list (event T)) :
  zlen fed = Z.quot (zlen signal - window_length + window_shift) window_shift ->
  process_waveform window_length window_shift vector_dim self signal tr
  = (tr ++ map AdapterCall batches,
     Ok (aggregate vector_dim (concat (map (net self) batches)),
         count_nan (aggregate vector_dim (concat (map (net self) batches))))).
Proof.
  intros Hrows.
  destruct (process_waveform_trace window_length window_shift vector_dim self
              shift_pos length_nonneg dim_nonneg chunks_pos net_shape signal [])
    as (bs & k & Htr & Hcat & Hk & Hb & Hval & _).
  assert (Hbs : batches = bs).
  { unfold batches_fed. rewrite Htr. simpl. apply adapter_calls_map. }
  destruct fed_summary as (_ & Hlen & _).
  rewrite (appends_process_waveform window_length window_shift vector_dim self signal tr).
  rewrite Hval by lia. simpl. rewrite Hbs. reflexivity.
Qed.

Lemma loop_passes_divisible :
  window_length <= zlen signal ->
  (zlen signal - window_length) mod window_shift = 0 ->
  passes = (zlen signal - window_length) / window_shift /\
  Z.quot (zlen signal - window_length + window_shift) window_shift
  = (zlen signal - window_length) / window_shift + 1.
Proof.
  intros HL Hdiv.
  pose proof (Z.div_mod (zlen signal - window_length) window_shift ltac:(lia)) as Hdm.
  split.
  - unfold loop_passes. destruct (window_length <? zlen signal) eqn:EL.
    + apply Z.ltb_lt in EL.
      assert ((zlen signal - window_length - 1) / window_shift
              = (zlen signal - window_length) / window_shift - 1); [|lia].
      symmetry. apply (Z.div_unique _ _ _ (window_shift - 1)); lia.
    + apply Z.ltb_ge in EL.
      replace (zlen signal - window_length) with 0 by lia.
      rewrite Z.div_0_l by lia. reflexivity.
  - rewrite Z.quot_div_nonneg by lia.
    replace (zlen signal - window_length + window_shift)
      with (zlen signal - window_length + 1 * window_shift) by lia.
    apply Z.div_add. lia.
Qed.

Lemma loop_passes_indivisible :
  window_length <= zlen signal ->
  (zlen signal - window_length) mod window_shift <> 0 ->
  passes = (zlen signal - window_length) / window_shift + 1 /\
  Z.quot (zlen signal - window_length + window_shift) window_shift
  = (zlen signal - window_length) / window_shift + 1.
Proof.
  intros HL Hdiv.
  pose proof (Z.div_mod (zlen signal - window_length) window_shift ltac:(lia)) as Hdm.
  pose proof (Z.mod_pos_bound (zlen signal - window_length) window_shift shift_pos) as Hm.
  split.
  - unfold loop_passes. destruct (window_length <? zlen signal) eqn:EL.
    + apply Z.ltb_lt in EL. f_equal. symmetry.
      apply (Z.div_unique _ _ _ ((zlen signal - window_length) mod window_shift - 1)); lia.
    + apply Z.ltb_ge in EL.
      assert (Hz : zlen signal - window_length = 0) by lia.
      rewrite Hz, Z.mod_0_l in Hdiv by lia. contradiction.
  - rewrite Z.quot_div_nonneg by lia.
    replace (zlen signal - window_length + window_shift)
      with (zlen signal - window_length + 1 * window_shift) by lia.
    apply Z.div_add. lia.
Qed.

(** The number of frames the loop feeds, against the number
    [N = (L - F) / S + 1] of frames of the waveform. *)
Lemma fed_count :
  window_length <= zlen signal ->
  zlen fed = if (zlen signal - window_length) mod window_shift =? 0
             then (zlen signal - window_length) / window_shift
             else (zlen signal - window_length) / window_shift + 1.
Proof.
  intros HL. destruct fed_summary as (_ & Hlen & _). rewrite Hlen.
  destruct ((zlen signal - window_length) mod window_shift =? 0) eqn:Ediv.
  - apply Z.eqb_eq in Ediv. apply (loop_passes_divisible HL Ediv).
  - apply Z.eqb_neq in Ediv. apply (loop_passes_indivisible HL Ediv).
Qed.

(** When [window_shift] divides [len(signal) - window_length] the loop runs
    one pass less than the buffer has rows. *)
Lemma process_waveform_overrun (tr : list (event T)) :
  window_length <= zlen signal ->
  (zlen signal - window_length) mod window_shift = 0 ->
  process_waveform window_length window_shift vector_dim self signal tr
  = (tr ++ map AdapterCall batches,
     overrun_outcome vector_dim
       (((zlen signal - window_length) / window_shift) mod C)
       (concat (map (net self) batches))).
Proof.
  intros HL Hdiv. destruct (loop_passes_divisible HL Hdiv) as [Hp Hq].
  destruct (process_waveform_trace window_length window_shift vector_dim self
              shift_pos length_nonneg dim_nonneg chunks_pos net_shape signal [])
    as (bs & k & Htr & Hcat & Hk & Hb & _ & Hover).
  assert (Hbs : batches = bs).
  { unfold batches_fed. rewrite Htr. simpl. apply adapter_calls_map. }
  rewrite (appends_process_waveform window_length window_shift vector_dim self signal tr).
  rewrite Hover by lia. simpl. rewrite Hbs, Hk, Hp. reflexivity.
Qed.

End Fed.

(** ** NaN propagation *)

Lemma binary32_ieee_laws : ieee_laws spec_float.
Proof.
  constructor; try reflexivity.
  - intros [| | |] y; try discriminate. reflexivity.
  - intros [| | |] [| | |]; try discriminate; reflexivity.
  - intros [| | |] y; try discriminate. reflexivity.
Qed.

Section Laws.
Context {T : Type} `{Scalar T}.
Hypothesis laws : ieee_laws T.

Lemma fold_add_nan_acc (l : list T) (a : T) :
  s_isnan a = true -> s_isnan (fold_left s_add l a) = true.
Proof.
  revert a; induction l as [|x l IH]; intros a Ha; simpl; [exact Ha|].
  apply IH. apply (nan_add_l laws). exact Ha.
Qed.

Lemma fold_add_nan_in (l : list T) (a x : T) :
  In x l -> s_isnan x = true -> s_isnan (fold_left s_add l a) = true.
Proof.
  revert a; induction l as [|y l IH]; intros a Hin Hx; simpl; [contradiction|].
  destruct Hin as [->|Hin].
  - apply fold_add_nan_acc. apply (nan_add_r laws). exact Hx.
  - apply IH; assumption.
Qed.

Lemma l2_norm_zero_row (n : nat) : l2_norm (repeat (s_zero (T := T)) n) = s_zero.
Proof.
  assert (Hfold : forall m : nat,
             fold_left s_add (map (fun x : T => s_mul x x) (repeat s_zero m)) s_zero
             = s_zero).
  { induction m as [|m IH]; simpl; [reflexivity|].
    rewrite (zero_sq laws), (zero_add laws). exact IH. }
  unfold l2_norm, vector_norm, sum.
  destruct n as [|[|n]]; cbn [repeat].
  - apply (zero_sqrt laws).
  - apply (zero_abs laws).
  - change (s_zero :: s_zero :: repeat s_zero n) with (repeat (s_zero (T := T)) (S (S n))).
    rewrite Hfold. apply (zero_sqrt laws).
Qed.

(** A buffer holding an all-zero embedding aggregates to a mean with a NaN
    coordinate, which the health check flags. *)
Lemma zero_row_is_flagged (vector_dim : Z) (vectors : tensor2 T) :
  0 < vector_dim ->
  Forall (fun e => length e = Z.to_nat vector_dim) vectors ->
  In (repeat s_zero (Z.to_nat vector_dim)) vectors ->
  existsb s_isnan (aggregate vector_dim vectors) = true.
Proof.
  intros HD Hw Hin. rewrite (aggregate_as_spec vector_dim vectors Hw).
  unfold utterance_embedding_spec.
  destruct (Z.to_nat vector_dim) as [|d] eqn:Ed; [lia|].
  cbn [seq map existsb]. apply orb_true_iff. left.
  unfold coordinate_mean. apply (nan_div_l laws).
  apply (fold_add_nan_in _ _ (s_div s_zero s_zero)); [|apply (zero_div_zero laws)].
  rewrite map_map. apply in_map_iff. exists (repeat s_zero (S d)).
  split; [|exact Hin].
  unfold normalize_frame. rewrite l2_norm_zero_row. reflexivity.
Qed.

(** A waveform shorter than a frame, processed on its own: the allocation
    of a buffer raises, or the mean over no frame is all NaN. *)
Lemma short_waveform_alone (window_length window_shift vector_dim : Z) (self : DeepDream)
  (signal : tensor1 T) (tr : list (event T)) :
  0 < window_shift -> zlen signal < window_length -> 0 < vector_dim ->
  process_waveform window_length window_shift vector_dim self signal tr
    = (tr, Raise RuntimeError) \/
  process_waveform window_length window_shift vector_dim self signal tr
    = (tr, Ok (repeat (s_div s_zero s_zero) (Z.to_nat vector_dim), vector_dim)).
Proof.
  intros HS HL HD.
  match goal with |- ?x = _ \/ _ => remember x as r eqn:Hr end.
  unfold process_waveform, number_of_frames in Hr.
  destruct (window_shift =? 0) eqn:E0; [apply Z.eqb_eq in E0; lia|clear E0].
  unfold bind at 1 in Hr. unfold lift at 1 in Hr.
  unfold bind at 1 in Hr. unfold lift at 1 in Hr.
  unfold zeros2 at 1 in Hr.
  destruct ((number_of_chunks self <? 0) || (window_length <? 0));
    [left; exact Hr|].
  set (n := Z.quot (zlen signal - window_length + window_shift) window_shift) in Hr.
  assert (Hn : n <= 0).
  { unfold n. destruct (Z.le_gt_cases 0 (zlen signal - window_length + window_shift)).
    - rewrite Z.quot_small by lia. lia.
    - replace (zlen signal - window_length + window_shift)
        with (- (window_length - zlen signal - window_shift)) by lia.
      rewrite Z.quot_opp_l by lia.
      assert (0 <= Z.quot (window_length - zlen signal - window_shift) window_shift)
        by (apply Z.quot_pos; lia).
      lia. }
  unfold bind at 1 in Hr. unfold lift at 1 in Hr. unfold zeros2 at 1 in Hr.
  destruct (n <? 0) eqn:En; [left; exact Hr|].
  apply Z.ltb_ge in En. assert (Hn0 : n = 0) by lia. rewrite Hn0 in Hr.
  destruct (vector_dim <? 0) eqn:Ed; [apply Z.ltb_lt in Ed; lia|].
  right. cbn [orb Z.to_nat repeat] in Hr.
  unfold bind at 1 in Hr. rewrite while_loop_exit in Hr by (cbn [end_of_sample]; lia).
  cbn [frame_count vectors] in Hr. unfold bind, ret in Hr. cbn [Z.gtb Z.compare] in Hr.
  unfold aggregate, mean_dim0 in Hr.
  cbn [norm_p2_dim1 view_column map div_broadcast fold_left zlen length Z.of_nat] in Hr.
  rewrite (of_Z_zero laws) in Hr.
  assert (Hrep : forall m : nat,
             map (fun s : T => s_div s s_zero) (repeat s_zero m)
             = repeat (s_div s_zero s_zero) m)
    by (induction m as [|m IH]; simpl; [reflexivity | rewrite IH; reflexivity]).
  rewrite Hrep in Hr. rewrite Hr. f_equal. f_equal. f_equal.
  unfold count_nan, zlen.
  assert (Hcnt : forall m : nat,
             length (filter s_isnan (repeat (s_div (s_zero (T := T)) s_zero) m)) = m).
  { induction m as [|m IH]; simpl; [reflexivity|].
    rewrite (zero_div_zero laws). simpl. rewrite IH. reflexivity. }
  rewrite Hcnt. lia.
Qed.

End Laws.

(** ** The statements of the specification *)

Lemma head2_net_shape (w : Z) (batch : tensor2 spec_float) :
  2 <= w ->
  Forall (fun f => length f = Z.to_nat w) batch ->
  length (head2_net batch) = length batch /\
  Forall (fun e => length e = Z.to_nat 2) (head2_net batch).
Proof.
  intros Hw Hb. unfold head2_net. split; [apply length_map|].
  apply Forall_map. eapply Forall_impl; [|exact Hb].
  intros f Hf. cbv beta in *. rewrite length_firstn. lia.
Qed.

Lemma ramp_length (n : nat) : zlen (ramp n) = Z.of_nat n.
Proof. unfold ramp, zlen. rewrite length_map, length_seq. reflexivity. Qed.

Lemma for_loop_last_rate {T : Type} `{Scalar T}
  (window_length window_shift vector_dim : Z) (self : DeepDream)
  (x : list (tensor1 T * Z)) (tr tr' : list (event T)) (l : locals) :
  for_loop window_length window_shift vector_dim self x None tr = (tr', Ok (Some l)) ->
  exists pre signal, x = pre ++ [(signal, l_sample_rate l)].
Proof.
  destruct x as [|p x _] using rev_ind; intros Hrun.
  - simpl in Hrun. unfold ret in Hrun. inversion Hrun.
  - destruct p as [signal rate]. exists x, signal.
    rewrite for_loop_app in Hrun.
    destruct (for_loop window_length window_shift vector_dim self x None tr)
      as [tr1 [b| e |]]; try discriminate.
    simpl in Hrun. unfold bind, ret in Hrun.
    destruct (process_waveform window_length window_shift vector_dim self signal tr1)
      as [tr2 [r| e |]]; try discriminate.
    inversion Hrun. reflexivity.
Qed.

(** C1: the health check and the append to [output] stand after the [for],
    so a call that returns hands back one pair whatever the number of input
    waveforms: the pair of the last waveform, with its sample rate. *)
Theorem transform_emits_last_only {T : Type} `{Scalar T}
  (window_length window_shift vector_dim : Z) (self : DeepDream)
  (x : list (tensor1 T * Z)) (tr tr' : list (event T))
  (out : list (option (tensor1 T) * Z)) :
  transform window_length window_shift vector_dim self x tr = (tr', Ok out) ->
  length out = 1%nat /\
  exists pre signal rate, x = pre ++ [(signal, rate)] /\ map snd out = [rate].
Proof.
  intros Hrun. split; [eapply transform_returns_one; exact Hrun|].
  unfold transform, bind in Hrun.
  destruct (for_loop window_length window_shift vector_dim self x None tr)
    as [tr1 [[l|]| e |]] eqn:Hloop; try discriminate.
  destruct (for_loop_last_rate _ _ _ _ _ _ _ _ Hloop) as (pre & signal & Hx).
  exists pre, signal, (l_sample_rate l). split; [exact Hx|].
  destruct (l_nan_sum l >? 0); unfold emit, ret in Hrun; inversion Hrun; reflexivity.
Qed.

Lemma transform_emits_last_only_witness :
  length (outputs (snd (transform 2 2 2 (engine 4 head2_net) two_waveforms []))) = 1%nat.
Proof.
  refine (proj1 (transform_emits_last_only 2 2 2 (engine 4 head2_net) two_waveforms []
                   (fst (transform 2 2 2 (engine 4 head2_net) two_waveforms [])) _ _)).
  vm_compute. reflexivity.
Defined.

(** C2: for a waveform with [F <= L] the buffer of embeddings is sized for
    [N = floor((L-F)/S) + 1] frames, and every frame the loop extracts is the
    slice [i*S, i*S+F) in increasing order of [i]; but the loop condition
    [end_of_sample < L] is strict, so when [S] divides [L - F] the frame that
    ends at the last sample is not extracted and only [N - 1] frames are. *)
Theorem frames_fed_count {T : Type} `{Scalar T}
  (window_length window_shift vector_dim : Z) (self : DeepDream) (signal : tensor1 T) :
  0 < window_shift -> 0 <= window_length -> 0 <= vector_dim ->
  0 < number_of_chunks self ->
  (forall batch : tensor2 T,
     Forall (fun f => length f = Z.to_nat window_length) batch ->
     length (net self batch) = length batch /\
     Forall (fun e => length e = Z.to_nat vector_dim) (net self batch)) ->
  window_length <= zlen signal ->
  let fed := frames_fed window_length window_shift vector_dim self signal in
  let N := (zlen signal - window_length) / window_shift + 1 in
  number_of_frames window_length window_shift (zlen signal) = Ok N /\
  fed = map (frame window_length window_shift signal) (seq 0 (length fed)) /\
  zlen fed = if (zlen signal - window_length) mod window_shift =? 0 then N - 1 else N.
Proof.
  intros HS HW HD HC Hnet HL fed N.
  destruct (fed_summary window_length window_shift vector_dim self HS HW HD HC Hnet signal)
    as (Hfed & Hlen & _).
  fold fed in Hfed, Hlen.
  pose proof (Z.div_mod (zlen signal - window_length) window_shift ltac:(lia)) as Hdm.
  pose proof (Z.mod_pos_bound (zlen signal - window_length) window_shift HS) as Hm.
  split; [|split].
  - unfold number_of_frames.
    destruct (window_shift =? 0) eqn:E0; [apply Z.eqb_eq in E0; lia|].
    f_equal. rewrite Z.quot_div_nonneg by lia. unfold N.
    replace (zlen signal - window_length + window_shift)
      with (zlen signal - window_length + 1 * window_shift) by lia.
    apply Z.div_add. lia.
  - rewrite Hfed at 1. f_equal. f_equal. unfold zlen in Hlen. lia.
  - rewrite Hlen. unfold loop_passes, N.
    destruct (window_length <? zlen signal) eqn:EL.
    + apply Z.ltb_lt in EL.
      destruct ((zlen signal - window_length) mod window_shift =? 0) eqn:Ediv.
      * apply Z.eqb_eq in Ediv.
        assert ((zlen signal - window_length - 1) / window_shift
                = (zlen signal - window_length) / window_shift - 1); [|lia].
        symmetry. apply (Z.div_unique _ _ _ (window_shift - 1)); lia.
      * apply Z.eqb_neq in Ediv. f_equal.
        symmetry.
        apply (Z.div_unique _ _ _ ((zlen signal - window_length) mod window_shift - 1)); lia.
    + apply Z.ltb_ge in EL.
      assert (Hz : zlen signal - window_length = 0) by lia.
      rewrite Hz. rewrite Z.mod_0_l, Z.div_0_l by lia. reflexivity.
Qed.

Lemma frames_fed_count_witness :
  number_of_frames 200 80 (zlen (ramp 360)) = Ok 3 /\
  zlen (frames_fed 200 80 2 (engine 4 head2_net) (ramp 360)) = 2.
Proof.
  destruct (frames_fed_count 200 80 2 (engine 4 head2_net) (ramp 360))
    as (Hn & _ & Hc).
  - lia.
  - lia.
  - lia.
  - simpl. lia.
  - intros batch. apply head2_net_shape. lia.
  - rewrite ramp_length. lia.
  - rewrite ramp_length in Hn, Hc. split; [exact Hn | exact Hc].
Defined.

(** [process_waveform] is [embedding_buffer] followed by lines 198-204. *)
Lemma process_waveform_buffer {T : Type} `{Scalar T}
  (window_length window_shift vector_dim : Z) (self : DeepDream)
  (signal : tensor1 T) (tr : list (event T)) :
  process_waveform window_length window_shift vector_dim self signal tr
  = (vectors <- embedding_buffer window_length window_shift vector_dim self signal ;;
     ret (aggregate vector_dim vectors, count_nan (aggregate vector_dim vectors))) tr.
Proof.
  unfold process_waveform, embedding_buffer, bind.
  repeat match goal with
         | |- context [match ?m ?t with _ => _ end] =>
             match type of (m t) with
             | (_ * outcome _)%type => destruct (m t) as [? [?| ? |]]; try reflexivity
             end
         | |- context [if ?c then _ else _] => destruct c
         end.
Qed.

(** C3, as the code has it: for the waveform whose pair the call returns,
    the predictions are the aggregated mean of the buffer the frame loop
    leaves; when one of their coordinates is NaN the call prints the
    diagnostic and returns the invalid marker with the sample rate, and
    otherwise (infinite coordinates included) it returns the predictions. *)
Theorem health_check_flags_nan {T : Type} `{Scalar T}
  (window_length window_shift vector_dim : Z) (self : DeepDream)
  (pre : list (tensor1 T * Z)) (signal : tensor1 T) (rate : Z)
  (tr tr1 tr2 : list (event T)) (b : option locals) (vectors : tensor2 T) :
  for_loop window_length window_shift vector_dim self pre None tr = (tr1, Ok b) ->
  embedding_buffer window_length window_shift vector_dim self signal tr1
    = (tr2, Ok vectors) ->
  process_waveform window_length window_shift vector_dim self signal tr1
  = (tr2, Ok (aggregate vector_dim vectors, count_nan (aggregate vector_dim vectors))) /\
  transform window_length window_shift vector_dim self (pre ++ [(signal, rate)]) tr
  = if existsb s_isnan (aggregate vector_dim vectors)
    then (tr2 ++ [Stdout "NaNs occurred, no result is returned"], Ok [(None, rate)])
    else (tr2, Ok [(Some (aggregate vector_dim vectors), rate)]).
Proof.
  intros Hpre Hbuf.
  assert (Hproc : process_waveform window_length window_shift vector_dim self signal tr1
                  = (tr2, Ok (aggregate vector_dim vectors,
                              count_nan (aggregate vector_dim vectors)))).
  { rewrite process_waveform_buffer. unfold bind. rewrite Hbuf. reflexivity. }
  split; [exact Hproc|].
  unfold transform. unfold bind at 1. rewrite for_loop_app, Hpre.
  cbn [for_loop]. unfold bind at 1. rewrite Hproc. unfold ret at 1.
  cbn [l_nan_sum l_sample_rate l_predictions fst snd].
  rewrite count_nan_pos. destruct (existsb s_isnan (aggregate vector_dim vectors)); reflexivity.
Qed.

Lemma health_check_flags_nan_witness :
  transform 2 2 2 (engine 4 head2_net) [(ramp 1, 16000)] []
  = ([Stdout "NaNs occurred, no result is returned"], Ok [(None, 16000)]).
Proof.
  refine (proj2 (health_check_flags_nan 2 2 2 (engine 4 head2_net) [] (ramp 1) 16000
                   [] [] [] None [] _ _)).
  - reflexivity.
  - vm_compute. reflexivity.
Defined.

(** C3 fails on embeddings whose squared norm underflows: both
    coordinates of the aggregated mean are [+infinity], none is NaN, and the
    call returns the vector. *)
Lemma health_check_passes_infinity :
  snd (process_waveform 2 2 2 (engine 4 (const_net [tiny; tiny])) (ramp 5) [])
  = Ok ([S754_infinity false; S754_infinity false], 0) /\
  snd (transform 2 2 2 (engine 4 (const_net [tiny; tiny])) [(ramp 5, 16000)] [])
  = Ok [(Some [S754_infinity false; S754_infinity false], 16000)].
Proof. split; vm_compute; reflexivity. Qed.

Lemma nth_map_seq {A : Type} (f : nat -> A) (n j : nat) (d : A) :
  (j < n)%nat -> nth j (map f (seq 0 n)) d = f j.
Proof.
  intros Hj. rewrite (nth_indep _ d (f 0%nat)) by (rewrite length_map, length_seq; lia).
  rewrite map_nth, seq_nth by lia. reflexivity.
Qed.

Lemma nth_normalize_frame {T : Type} `{Scalar T} (e : tensor1 T) (j : nat) :
  (j < length e)%nat ->
  nth j (normalize_frame e) s_zero = s_div (nth j e s_zero) (l2_norm e).
Proof.
  intros Hj. unfold normalize_frame.
  rewrite (nth_indep _ s_zero (s_div s_zero (l2_norm e))) by (rewrite length_map; lia).
  apply (map_nth (fun x => s_div x (l2_norm e))).
Qed.

Lemma last_width {A : Type} (width : nat) (rows : list (list A)) :
  rows <> [] ->
  Forall (fun e => length e = width) rows ->
  length (last rows []) = width.
Proof.
  intros Hne Hw. rewrite Forall_forall in Hw. apply Hw.
  destruct (exists_last Hne) as (front & e & ->). rewrite last_last.
  apply in_or_app. right. left. reflexivity.
Qed.

(** C4: line 198 on a buffer of [N >= 1] rows of [D] coordinates is the
    mean over the rows of each row divided by its own L2 norm.  For a
    waveform of [L >= F] samples the rows of the buffer are the embeddings
    of its frames when [S] does not divide [L - F].  When [S] divides
    [L - F], with [k = (L - F) / S], the loop produces [k] embeddings and the
    buffer has [k + 1] rows: no frame is left for the partial batch and the
    last row is zero, or one is left and its embedding fills the last two
    rows, or more are left and the write of line 194 raises. *)
Theorem utterance_embedding_over_buffer {T : Type} `{Scalar T} (vector_dim : Z) :
  (forall vectors : tensor2 T,
     vectors <> [] ->
     Forall (fun e => length e = Z.to_nat vector_dim) vectors ->
     aggregate vector_dim vectors = utterance_embedding_spec vector_dim vectors /\
     length (aggregate vector_dim vectors) = Z.to_nat vector_dim /\
     forall j : nat, (j < Z.to_nat vector_dim)%nat ->
       nth j (aggregate vector_dim vectors) s_zero
       = s_div (sum (map (fun e => s_div (nth j e s_zero) (l2_norm e)) vectors))
               (s_of_Z (zlen vectors))) /\
  (forall (window_length window_shift : Z) (self : DeepDream) (signal : tensor1 T)
          (tr : list (event T)),
     0 < window_shift -> 0 <= window_length -> 0 <= vector_dim ->
     0 < number_of_chunks self ->
     (forall batch : tensor2 T,
        Forall (fun f => length f = Z.to_nat window_length) batch ->
        length (net self batch) = length batch /\
        Forall (fun e => length e = Z.to_nat vector_dim) (net self batch)) ->
     window_length <= zlen signal ->
     let embeddings :=
       concat (map (net self) (batches_fed window_length window_shift vector_dim self signal)) in
     let k := (zlen signal - window_length) / window_shift in
     let mean_of (rows : tensor2 T) : outcome (tensor1 T * Z) :=
       Ok (utterance_embedding_spec vector_dim rows,
           count_nan (utterance_embedding_spec vector_dim rows)) in
     if (zlen signal - window_length) mod window_shift =? 0
     then zlen embeddings = k /\
          snd (process_waveform window_length window_shift vector_dim self signal tr)
          = if k mod number_of_chunks self =? 0
            then mean_of (embeddings ++ [repeat s_zero (Z.to_nat vector_dim)])
            else if k mod number_of_chunks self =? 1
                 then mean_of (embeddings ++ [last embeddings []])
                 else Raise RuntimeError
     else zlen embeddings = k + 1 /\
          snd (process_waveform window_length window_shift vector_dim self signal tr)
          = mean_of embeddings).
Proof.
  split.
  - intros vectors _ Hw. rewrite (aggregate_as_spec vector_dim vectors Hw).
    split; [reflexivity|]. unfold utterance_embedding_spec. split.
    + rewrite length_map, length_seq. reflexivity.
    + intros j Hj. rewrite nth_map_seq by exact Hj.
      unfold coordinate_mean, zlen. rewrite length_map, map_map. f_equal. f_equal.
      apply map_ext_in. intros e He. apply nth_normalize_frame.
      rewrite Forall_forall in Hw. rewrite (Hw e He). exact Hj.
  - intros window_length window_shift self signal tr HS HW HD HC Hnet HL embeddings k mean_of.
    pose proof (fed_embeddings_width window_length window_shift vector_dim self
                  HS HW HD HC Hnet signal) as Hwidth.
    pose proof (fed_embeddings_length window_length window_shift vector_dim self
                  HS HW HD HC Hnet signal) as Hlen.
    pose proof (fed_count window_length window_shift vector_dim self
                  HS HW HD HC Hnet signal HL) as Hcount.
    fold embeddings in Hwidth, Hlen.
    assert (Hemb : zlen embeddings
                   = zlen (frames_fed window_length window_shift vector_dim self signal))
      by (unfold zlen; rewrite Hlen; reflexivity).
    rewrite <- Hemb in Hcount. fold k in Hcount.
    destruct ((zlen signal - window_length) mod window_shift =? 0) eqn:Ediv.
    + apply Z.eqb_eq in Ediv. split; [exact Hcount|].
      rewrite (process_waveform_overrun window_length window_shift vector_dim self
                 HS HW HD HC Hnet signal tr HL Ediv).
      cbn [snd]. fold embeddings. fold k. unfold overrun_outcome, mean_of.
      destruct (k mod number_of_chunks self =? 0) eqn:E0.
      * rewrite aggregate_as_spec; [reflexivity|].
        apply Forall_app. split; [exact Hwidth|].
        constructor; [apply repeat_length | constructor].
      * destruct (k mod number_of_chunks self =? 1) eqn:E1; [|reflexivity].
        apply Z.eqb_eq in E1.
        assert (Hne : embeddings <> []).
        { intros Hnil. rewrite Hnil in Hcount. unfold zlen in Hcount. simpl in Hcount.
          rewrite <- Hcount in E1. rewrite Z.mod_0_l in E1 by lia. discriminate. }
        rewrite aggregate_as_spec; [reflexivity|].
        apply Forall_app. split; [exact Hwidth|].
        constructor; [apply last_width; assumption | constructor].
    + apply Z.eqb_neq in Ediv. split; [exact Hcount|].
      destruct (loop_passes_indivisible window_length window_shift HS signal HL Ediv)
        as [_ Hq].
      rewrite (process_waveform_value window_length window_shift vector_dim self
                 HS HW HD HC Hnet signal tr) by (rewrite <- Hemb, Hcount, Hq; reflexivity).
      cbn [snd]. fold embeddings. unfold mean_of.
      rewrite (aggregate_as_spec vector_dim embeddings Hwidth). reflexivity.
Qed.

Lemma utterance_embedding_over_buffer_witness :
  let embeddings := concat (map head2_net (batches_fed 2 2 2 (engine 4 head2_net) (ramp 12))) in
  aggregate 2 two_embeddings = utterance_embedding_spec 2 two_embeddings /\
  (zlen embeddings = 5 /\
   snd (process_waveform 2 2 2 (engine 4 head2_net) (ramp 12) [])
   = Ok (utterance_embedding_spec 2 (embeddings ++ [last embeddings []]),
         count_nan (utterance_embedding_spec 2 (embeddings ++ [last embeddings []])))) /\
  utterance_embedding_spec 2 (embeddings ++ [last embeddings []])
    <> utterance_embedding_spec 2 embeddings.
Proof.
  split; [|split].
  - refine (proj1 (proj1 (utterance_embedding_over_buffer 2) two_embeddings _ _)).
    + discriminate.
    + repeat constructor.
  - refine (proj2 (utterance_embedding_over_buffer 2) 2 2 (engine 4 head2_net)
              (ramp 12) [] _ _ _ _ _ _).
    + lia.
    + lia.
    + lia.
    + simpl. lia.
    + intros batch. apply head2_net_shape. lia.
    + rewrite ramp_length. lia.
  - vm_compute. discriminate.
Defined.

(** C5: while one waveform is processed the adapter receives frames in
    frame order, cut into batches of exactly [C] frames followed, when
    frames are left, by one batch of the frames left, without padding.  The
    frames it receives are the [N = (L - F) / S + 1] frames of the waveform
    when [S] does not divide [L - F]; when it does, they are the first
    [N - 1] of them only, in [ceil((N - 1) / C)] batches.  With frame length
    200, shift 80 and capacity 4, a waveform of 700 samples gives 7 frames in
    batches of 4 and 3. *)
Theorem adapter_batches_partition {T : Type} `{Scalar T}
  (window_length window_shift vector_dim : Z) (self : DeepDream) (signal : tensor1 T) :
  0 < window_shift -> 0 <= window_length -> 0 <= vector_dim ->
  0 < number_of_chunks self ->
  (forall batch : tensor2 T,
     Forall (fun f => length f = Z.to_nat window_length) batch ->
     length (net self batch) = length batch /\
     Forall (fun e => length e = Z.to_nat vector_dim) (net self batch)) ->
  window_length <= zlen signal ->
  let C := number_of_chunks self in
  let batches := batches_fed window_length window_shift vector_dim self signal in
  let N := (zlen signal - window_length) / window_shift + 1 in
  let n := if (zlen signal - window_length) mod window_shift =? 0 then N - 1 else N in
  concat batches = map (frame window_length window_shift signal) (seq 0 (Z.to_nat n)) /\
  zlen batches = (n + C - 1) / C /\
  (forall j : nat, Z.of_nat j < n / C -> zlen (nth j batches []) = C) /\
  (n mod C <> 0 -> zlen (last batches []) = n mod C) /\
  (window_length = 200 -> window_shift = 80 -> C = 4 -> zlen signal = 700 ->
   N = 7 /\ map zlen batches = [4; 3]).
Proof.
  intros HS HW HD HC Hnet HL C batches N n.
  destruct (fed_summary window_length window_shift vector_dim self HS HW HD HC Hnet signal)
    as (Hfed & Hlen & Hb).
  pose proof (fed_count window_length window_shift vector_dim self
                HS HW HD HC Hnet signal HL) as Hcount.
  pose proof (loop_passes_nonneg window_length window_shift HS signal) as Hpos.
  assert (Hn : loop_passes window_length window_shift signal = n).
  { rewrite <- Hlen, Hcount. unfold n, N.
    destruct ((zlen signal - window_length) mod window_shift =? 0); lia. }
  rewrite Hn in *. fold batches in Hb. unfold frames_fed in Hfed. fold batches in Hfed.
  assert (HN : Z.of_nat (Z.to_nat n) = n) by lia.
  split; [|split; [|split; [|split]]].
  - exact Hfed.
  - rewrite <- HN at 1. apply (batched_count self HC _ _ Hb).
  - intros j Hj. apply (batched_full self (Z.to_nat n)); [exact Hb | rewrite HN; exact Hj].
  - intros Hne. rewrite <- HN.
    apply (batched_last self (Z.to_nat n)); [exact Hb | rewrite HN; exact Hne].
  - intros HF HS80 HC4 HL700.
    assert (HN7 : N = 7) by (unfold N; rewrite HF, HS80, HL700; reflexivity).
    assert (Hn7 : n = 7) by (unfold n, N; rewrite HF, HS80, HL700; reflexivity).
    split; [exact HN7|].
    destruct Hb as (full & rest & Heq & Hfull & Hq & Hrest).
    rewrite HN, Hn7 in Hq, Hrest. fold C in Hq, Hrest, Hfull. rewrite HC4 in Hq, Hrest, Hfull.
    change (7 / 4) with 1 in Hq. change (7 mod 4) with 3 in Hrest.
    destruct Hrest as [[_ Hz]|(b & -> & Hb3 & _)]; [discriminate|].
    destruct full as [|f [|g full]]; unfold zlen in Hq; simpl in Hq; try lia.
    inversion Hfull as [|? ? Hf4 _].
    rewrite Heq. simpl. rewrite Hf4, Hb3. reflexivity.
Qed.

Lemma adapter_batches_partition_witness :
  zlen (batches_fed 200 80 2 (engine 4 head2_net) (ramp 200)) = 0 /\
  map zlen (batches_fed 200 80 2 (engine 4 head2_net) (ramp 700)) = [4; 3].
Proof.
  split.
  - refine (proj1 (proj2 (adapter_batches_partition 200 80 2 (engine 4 head2_net) (ramp 200)
                            _ _ _ _ _ _))).
    + lia.
    + lia.
    + lia.
    + simpl. lia.
    + intros batch. apply head2_net_shape. lia.
    + rewrite ramp_length. lia.
  - refine (proj2 (proj2 (proj2 (proj2 (proj2
              (adapter_batches_partition 200 80 2 (engine 4 head2_net) (ramp 700)
                 _ _ _ _ _ _)))) eq_refl eq_refl eq_refl _)).
    + lia.
    + lia.
    + lia.
    + simpl. lia.
    + intros batch. apply head2_net_shape. lia.
    + rewrite ramp_length. lia.
    + apply ramp_length.
Defined.

(** C6, at two waveforms of which the first is shorter than a frame: its
    mean is all NaN, yet the call prints nothing and returns the pair of the
    second waveform only. *)
Theorem short_waveform_dropped :
  snd (process_waveform 2 2 2 (engine 4 head2_net) (ramp 1) [])
  = Ok ([S754_nan; S754_nan], 2) /\
  printed (fst (transform 2 2 2 (engine 4 head2_net) [(ramp 1, 16000); (ramp 5, 8000)] []))
  = [] /\
  exists v : tensor1 spec_float,
    snd (transform 2 2 2 (engine 4 head2_net) [(ramp 1, 16000); (ramp 5, 8000)] [])
    = Ok [(Some v, 8000)].
Proof.
  split; [vm_compute; reflexivity|]. split; [vm_compute; reflexivity|].
  eexists. vm_compute. reflexivity.
Qed.

(** C7: for a waveform of [F + k*S] samples with [k mod C >= 2], all-zero
    ones included, the loop leaves [k mod C] frames for the partial batch and
    one more row than that in the buffer; the write of line 194 raises, so
    the call ends in a RuntimeError and not in the invalid marker. *)
Theorem overrun_raises {T : Type} `{Scalar T}
  (window_length window_shift vector_dim : Z) (self : DeepDream)
  (signal : tensor1 T) (rate : Z) (tr : list (event T)) :
  0 < window_shift -> 0 <= window_length -> 0 <= vector_dim ->
  0 < number_of_chunks self ->
  (forall batch : tensor2 T,
     Forall (fun f => length f = Z.to_nat window_length) batch ->
     length (net self batch) = length batch /\
     Forall (fun e => length e = Z.to_nat vector_dim) (net self batch)) ->
  window_length <= zlen signal ->
  (zlen signal - window_length) mod window_shift = 0 ->
  2 <= ((zlen signal - window_length) / window_shift) mod number_of_chunks self ->
  snd (transform window_length window_shift vector_dim self [(signal, rate)] tr)
  = Raise RuntimeError.
Proof.
  intros HS HW HD HC Hnet HL Hdiv Hrem.
  unfold transform. cbn [for_loop]. unfold bind.
  rewrite (process_waveform_overrun window_length window_shift vector_dim self
             HS HW HD HC Hnet signal tr HL Hdiv).
  unfold overrun_outcome.
  destruct (_ mod _ =? 0) eqn:E0; [apply Z.eqb_eq in E0; lia|].
  destruct (_ mod _ =? 1) eqn:E1; [apply Z.eqb_eq in E1; lia|].
  reflexivity.
Qed.

Lemma overrun_raises_witness :
  frames_fed 200 80 2 (engine 4 head2_net) zero_waveform
  = repeat (repeat (S754_zero false) 200) 2 /\
  snd (transform 200 80 2 (engine 4 head2_net) [(zero_waveform, 16000)] [])
  = Raise RuntimeError.
Proof.
  split; [vm_compute; reflexivity|].
  apply overrun_raises.
  - lia.
  - lia.
  - lia.
  - simpl. lia.
  - intros batch. apply head2_net_shape. lia.
  - vm_compute. discriminate.
  - reflexivity.
  - vm_compute. discriminate.
Defined.

Lemma process_waveform_bad_chunks {T : Type} `{Scalar T}
  (window_length window_shift vector_dim : Z) (self : DeepDream)
  (signal : tensor1 T) (tr : list (event T)) :
  number_of_chunks self <= 0 ->
  0 < window_shift -> 0 <= window_length < zlen signal -> 0 <= vector_dim ->
  process_waveform window_length window_shift vector_dim self signal tr
  = (tr, Raise (if number_of_chunks self <? 0 then RuntimeError else IndexError)).
Proof.
  intros HC HS HW HD. unfold process_waveform, number_of_frames.
  destruct (window_shift =? 0) eqn:E0; [apply Z.eqb_eq in E0; lia|clear E0].
  unfold bind at 1. unfold lift at 1. unfold bind at 1. unfold lift at 1.
  destruct (number_of_chunks self <? 0) eqn:EC.
  - unfold zeros2. rewrite EC. reflexivity.
  - apply Z.ltb_ge in EC. assert (HC0 : number_of_chunks self = 0) by lia.
    rewrite HC0. rewrite zeros2_ok by lia.
    unfold bind at 1. unfold lift at 1.
    rewrite zeros2_ok.
    + unfold bind at 1.
      destruct (length signal) as [|fuel] eqn:El; [unfold zlen in HW; lia|].
      cbn [while_loop end_of_sample].
      destruct (window_length <? zlen signal) eqn:EL; [|apply Z.ltb_ge in EL; lia].
      reflexivity.
    + rewrite Z.quot_div_nonneg by lia. apply Z.div_pos; lia.
    + exact HD.
Qed.

(** C8, as the code has it: [__init__] stores [number_of_chunks] without
    looking at it, so construction ends as the loading of the model ends,
    whatever the value; a value [<= 0] makes the later [transform] raise as
    soon as the first waveform holding a frame is processed. *)
Theorem init_does_not_validate_chunks {T : Type} `{Scalar T}
  (window_length window_shift vector_dim : Z)
  (load_model : string -> bool -> outcome (tensor2 T -> tensor2 T))
  (layer model_path : string) (chunks : Z) (gpu verb : bool) (tr : list (event T)) :
  snd (init load_model layer model_path chunks gpu verb tr)
  = match load_model model_path gpu with
    | Ok f => Ok {| layer_name := layer; verbose := verb; number_of_chunks := chunks;
                    use_gpu := gpu; net := f |}
    | Raise e => Raise e
    | Diverge => Diverge
    end /\
  forall (self : DeepDream) (signal : tensor1 T) (rate : Z)
         (rest : list (tensor1 T * Z)) (tr' : list (event T)),
    number_of_chunks self <= 0 ->
    0 < window_shift -> 0 <= window_length < zlen signal -> 0 <= vector_dim ->
    transform window_length window_shift vector_dim self ((signal, rate) :: rest) tr'
    = (tr', Raise (if number_of_chunks self <? 0 then RuntimeError else IndexError)).
Proof.
  split.
  - unfold init, bind, lift, ret.
    destruct verb; simpl; destruct (load_model model_path gpu); reflexivity.
  - intros self signal rate rest tr' HC HS HW HD.
    unfold transform. cbn [for_loop]. unfold bind.
    rewrite process_waveform_bad_chunks by assumption. reflexivity.
Qed.

Lemma init_does_not_validate_chunks_witness :
  transform 2 2 2 (engine (-1) head2_net) [(ramp 5, 16000)] [] = ([], Raise RuntimeError).
Proof.
  refine (proj2 (init_does_not_validate_chunks 2 2 2 mock_loader "first" "model.pkl"
                   (-1) false true [])
            (engine (-1) head2_net) (ramp 5) 16000 [] [] _ _ _ _).
  - simpl. lia.
  - lia.
  - rewrite ramp_length. lia.
  - lia.
Defined.

(** C8 fails at [number_of_chunks = 0]: construction succeeds and the
    error comes from the later call of [transform]. *)
Lemma init_accepts_zero_chunks :
  exists d : DeepDream,
    snd (init mock_loader "first" "model.pkl" 0 false true []) = Ok d /\
    number_of_chunks d = 0 /\
    snd (transform 2 2 2 d [(ramp 5, 16000)] []) = Raise IndexError.
Proof.
  eexists. split; [reflexivity|]. split; [reflexivity|]. vm_compute. reflexivity.
Qed.

(** Where the addition of the scalars is commutative and associative the
    column sums, and so the aggregation, do not depend on the order of the
    rows. *)
Lemma permuted_rows_same_mean {T : Type} `{Scalar T}
  (vector_dim : Z) (vectors vectors' : tensor2 T) :
  (forall x y : T, s_add x y = s_add y x) ->
  (forall x y z : T, s_add (s_add x y) z = s_add x (s_add y z)) ->
  Permutation vectors vectors' ->
  aggregate vector_dim vectors' = aggregate vector_dim vectors.
Proof.
  intros Hc Ha Hp. unfold aggregate, mean_dim0.
  rewrite !div_broadcast_own_norm. unfold zlen, tensor2, tensor1 in *.
  rewrite !length_map, (Permutation_length Hp).
  f_equal. symmetry. apply fold_left_permutation.
  - apply add_rows_exchange; assumption.
  - apply Permutation_map. exact Hp.
Qed.

(** C9, in exact arithmetic: the aggregation of a permuted sequence of
    frame embeddings is the aggregation of the original sequence. *)
Theorem aggregate_permutation (vector_dim : Z) (vectors vectors' : tensor2 R) :
  Permutation vectors vectors' ->
  @aggregate R exact_real vector_dim vectors' = @aggregate R exact_real vector_dim vectors.
Proof.
  apply (@permuted_rows_same_mean R exact_real).
  - exact Rplus_comm.
  - exact Rplus_assoc.
Qed.

Lemma aggregate_permutation_witness :
  @aggregate R exact_real 2 [[1; 3]; [2; 1]; [1; 1]]%R
  = @aggregate R exact_real 2 (rev [[1; 3]; [2; 1]; [1; 1]]%R).
Proof.
  apply (aggregate_permutation 2 (rev [[1; 3]; [2; 1]; [1; 1]]%R) [[1; 3]; [2; 1]; [1; 1]]%R).
  apply Permutation_sym, Permutation_rev.
Defined.

(** C9 fails in single precision, where the addition is not associative:
    on three frame embeddings and their reversal the aggregated means
    differ. *)
Lemma aggregate_order_matters_float32 :
  Permutation [[f32 1; f32 3]; [f32 2; f32 1]; [f32 1; f32 1]]
              (rev [[f32 1; f32 3]; [f32 2; f32 1]; [f32 1; f32 1]]) /\
  @aggregate spec_float binary32 2 (rev [[f32 1; f32 3]; [f32 2; f32 1]; [f32 1; f32 1]])
  <> @aggregate spec_float binary32 2 [[f32 1; f32 3]; [f32 2; f32 1]; [f32 1; f32 1]].
Proof.
  split; [apply Permutation_rev|]. vm_compute. discriminate.
Qed.

(** C10: on an empty input the [for] binds nothing, the health check after
    it reads [nan_sum], and the call ends in an unbound-variable error
    instead of returning an empty list; this is the only input on which
    that error arises. *)
Theorem transform_empty_unbound {T : Type} `{Scalar T}
  (window_length window_shift vector_dim : Z) (self : DeepDream) (tr : list (event T)) :
  transform window_length window_shift vector_dim self [] tr
    = (tr, Raise UnboundLocalError) /\
  forall x : list (tensor1 T * Z),
    x <> [] ->
    snd (transform window_length window_shift vector_dim self x tr)
      <> Raise UnboundLocalError.
Proof.
  split; [reflexivity|].
  intros x Hx. unfold transform, bind.
  pose proof (avoids_for_loop window_length window_shift vector_dim self x None tr) as Hav.
  destruct (for_loop window_length window_shift vector_dim self x None tr)
    as [tr1 [b| e |]] eqn:Hloop; simpl in *.
  - destruct (for_loop_bound _ _ _ _ _ _ _ _ _ Hloop Hx) as [l ->].
    destruct (l_nan_sum l >? 0); discriminate.
  - intros Heq. apply Hav. inversion Heq. reflexivity.
  - discriminate.
Qed.

Lemma transform_empty_unbound_witness :
  snd (transform 2 2 2 (engine 4 head2_net) [(ramp 5, 16000)] [])
    <> Raise UnboundLocalError.
Proof.
  apply (proj2 (transform_empty_unbound 2 2 2 (engine 4 head2_net) [])).
  discriminate.
Defined.

(** ** Further properties of [transform] *)

Lemma halts_ret {T A : Type} (a : A) : halts (ret (T := T) a).
Proof. intros tr. discriminate. Qed.

Lemma halts_emit {T : Type} (ev : event T) : halts (emit ev).
Proof. intros tr. discriminate. Qed.

Lemma halts_lift {T A : Type} (o : outcome A) :
  o <> Diverge -> halts (lift (T := T) o).
Proof. intros Ho tr. exact Ho. Qed.

Lemma halts_bind {T A B : Type} (m : M T A) (k : A -> M T B) :
  halts m -> (forall a tr, snd (m tr) = Ok a -> halts (k a)) -> halts (bind m k).
Proof.
  intros Hm Hk tr. unfold bind. specialize (Hm tr). specialize (fun a => Hk a tr).
  destruct (m tr) as [tr' [a| e |]]; simpl in *.
  - apply (Hk a eq_refl).
  - discriminate.
  - contradiction.
Qed.

Section Termination.
Context {T : Type} `{Scalar T}.
Variables (window_length window_shift vector_dim : Z).
Variable self : DeepDream (T := T).

Lemma zeros2_halts (r c : Z) : zeros2 (T := T) r c <> Diverge.
Proof. unfold zeros2. destruct ((r <? 0) || (c <? 0)); discriminate. Qed.

Lemma set_row_halts (width : Z) (dst : tensor2 T) (i : Z) (src : tensor1 T) :
  set_row width dst i src <> Diverge.
Proof.
  unfold set_row. destruct ((0 <=? i) && (i <? zlen dst)); [|discriminate].
  destruct (broadcast_to (Z.to_nat width) src); discriminate.
Qed.

Lemma set_rows_halts (width : Z) (dst : tensor2 T) (a b : Z) (src : tensor2 T) :
  set_rows width dst a b src <> Diverge.
Proof.
  unfold set_rows. destruct (slice_bounds (zlen dst) a b) as [lo hi].
  destruct (broadcast_to (hi - lo) src) as [rows|]; [|discriminate].
  destruct (all_some (map (broadcast_to (Z.to_nat width)) rows)); discriminate.
Qed.

Ltac halts_steps :=
  repeat first
    [ apply halts_ret | apply halts_emit
    | apply halts_lift;
      first [apply zeros2_halts | apply set_row_halts | apply set_rows_halts]
    | apply halts_bind; [|intros ? ? _]
    | progress cbv zeta
    | match goal with |- halts (if ?c then _ else _) => destruct c end ].

Lemma halts_forward (batch : tensor2 T) : halts (forward self batch).
Proof. unfold forward. halts_steps. Qed.

Lemma halts_loop_body (signal : tensor1 T) (st : loop_state) :
  halts (loop_body window_length window_shift vector_dim self signal st).
Proof. unfold loop_body. halts_steps; apply halts_forward. Qed.

(** Every pass moves the window by [window_shift]. *)
Lemma loop_body_advances (signal : tensor1 T) (st st' : loop_state)
  (tr tr' : list (event T)) :
  loop_body window_length window_shift vector_dim self signal st tr = (tr', Ok st') ->
  beginning_of_sample st' = beginning_of_sample st + window_shift /\
  end_of_sample st' = beginning_of_sample st + window_shift + window_length.
Proof.
  unfold loop_body, bind, lift, ret. intros Hrun.
  destruct (set_row _ _ _ _) as [sa| e |]; try discriminate.
  destruct (frame_count st + 1 =? number_of_chunks self).
  - destruct (forward self sa tr) as [tr1 [out| e |]]; try discriminate.
    destruct (set_rows _ _ _ _ _) as [v| e |]; try discriminate.
    destruct (zeros2 _ _) as [fresh| e |]; try discriminate.
    inversion Hrun. split; reflexivity.
  - inversion Hrun. split; reflexivity.
Qed.

Lemma halts_while_loop (signal : tensor1 T) :
  0 < window_shift ->
  forall (fuel : nat) (st : loop_state),
    end_of_sample st = beginning_of_sample st + window_length ->
    zlen signal - end_of_sample st <= Z.of_nat fuel ->
    halts (while_loop window_length window_shift vector_dim self fuel signal st).
Proof.
  intros HS. induction fuel as [|fuel IH]; intros st Hend Hfuel tr; cbn [while_loop].
  - destruct (end_of_sample st <? zlen signal) eqn:E; [apply Z.ltb_lt in E; lia|].
    discriminate.
  - destruct (end_of_sample st <? zlen signal) eqn:E; [|discriminate].
    apply Z.ltb_lt in E. unfold bind.
    pose proof (halts_loop_body signal st tr) as Hb.
    destruct (loop_body window_length window_shift vector_dim self signal st tr)
      as [tr1 [st1| e |]] eqn:Hstep; simpl in *.
    + destruct (loop_body_advances signal st st1 tr tr1 Hstep) as [Hb1 He1].
      apply IH; lia.
    + discriminate.
    + contradiction.
Qed.

Lemma halts_process_waveform (signal : tensor1 T) :
  0 <= window_shift ->
  halts (process_waveform window_length window_shift vector_dim self signal).
Proof.
  intros HS tr. unfold process_waveform, number_of_frames.
  destruct (window_shift =? 0) eqn:E0; [discriminate|]. apply Z.eqb_neq in E0.
  unfold bind at 1. unfold lift at 1. unfold bind at 1. unfold lift at 1.
  unfold zeros2 at 1.
  destruct (number_of_chunks self <? 0); [discriminate|].
  destruct (window_length <? 0) eqn:EW; [discriminate|]. apply Z.ltb_ge in EW.
  cbn [orb]. revert tr.
  change (halts
    (v <- lift (zeros2 (Z.quot (zlen signal - window_length + window_shift) window_shift)
                  vector_dim) ;;
     st <- while_loop window_length window_shift vector_dim self (length signal) signal
             {| beginning_of_sample := 0; end_of_sample := window_length;
                frame_count := 0; vectors_output_offset := 0;
                signal_array := repeat (repeat s_zero (Z.to_nat window_length))
                                  (Z.to_nat (number_of_chunks self));
                vectors := v |} ;;
     v' <- (if frame_count st >? 0 then
              out <- forward self (slice (signal_array st) 0 (frame_count st)) ;;
              lift (set_rows vector_dim (vectors st) (vectors_output_offset st)
                      (zlen (vectors st)) out)
            else ret (vectors st)) ;;
     ret (aggregate vector_dim v', count_nan (aggregate vector_dim v')))).
  apply halts_bind; [apply halts_lift, zeros2_halts|]. intros v _ _.
  apply halts_bind.
  - apply halts_while_loop; [lia | reflexivity |]. cbn [end_of_sample]. unfold zlen. lia.
  - intros st _ _. halts_steps; apply halts_forward.
Qed.

Lemma halts_for_loop (x : list (tensor1 T * Z)) (b : option locals) :
  0 <= window_shift ->
  halts (for_loop window_length window_shift vector_dim self x b).
Proof.
  intros HS. revert b; induction x as [|[signal rate] x IH]; intros b; cbn [for_loop].
  - apply halts_ret.
  - apply halts_bind; [apply halts_process_waveform; exact HS | intros r _ _; apply IH].
Qed.

End Termination.

(** X1: with a non-negative [window_shift] a call of [transform] always
    ends, in a result or in an exception, whatever the adapter returns: the
    frame loop cannot run forever. *)
Theorem transform_terminates {T : Type} `{Scalar T}
  (window_length window_shift vector_dim : Z) (self : DeepDream)
  (x : list (tensor1 T * Z)) (tr : list (event T)) :
  0 <= window_shift ->
  snd (transform window_length window_shift vector_dim self x tr) <> Diverge.
Proof.
  intros HS. unfold transform.
  apply halts_bind; [apply halts_for_loop; exact HS|].
  intros [l|] _ _; [|apply halts_lift; discriminate].
  destruct (l_nan_sum l >? 0).
  - apply halts_bind; [apply halts_emit | intros; apply halts_ret].
  - apply halts_ret.
Qed.

Lemma transform_terminates_witness :
  snd (transform 2 2 2 (engine 4 head2_net) two_waveforms []) <> Diverge.
Proof. apply transform_terminates. lia. Defined.

(** The call on one waveform, from what the body of the [for] computes. *)
Lemma transform_single {T : Type} `{Scalar T}
  (window_length window_shift vector_dim : Z) (self : DeepDream)
  (signal : tensor1 T) (rate : Z) (tr tr2 : list (event T)) (p : tensor1 T) :
  process_waveform window_length window_shift vector_dim self signal tr
    = (tr2, Ok (p, count_nan p)) ->
  transform window_length window_shift vector_dim self [(signal, rate)] tr
  = if existsb s_isnan p
    then (tr2 ++ [Stdout "NaNs occurred, no result is returned"], Ok [(None, rate)])
    else (tr2, Ok [(Some p, rate)]).
Proof.
  intros Hproc. unfold transform. cbn [for_loop]. unfold bind. rewrite Hproc.
  unfold ret at 1. cbn [l_nan_sum l_sample_rate l_predictions fst snd].
  rewrite count_nan_pos. destruct (existsb s_isnan p); reflexivity.
Qed.

Lemma transform_single_raise {T : Type} `{Scalar T}
  (window_length window_shift vector_dim : Z) (self : DeepDream)
  (signal : tensor1 T) (rate : Z) (tr tr2 : list (event T)) (e : exn) :
  process_waveform window_length window_shift vector_dim self signal tr = (tr2, Raise e) ->
  transform window_length window_shift vector_dim self [(signal, rate)] tr
  = (tr2, Raise e).
Proof.
  intros Hproc. unfold transform. cbn [for_loop]. unfold bind. rewrite Hproc. reflexivity.
Qed.

(** X2: a waveform of exactly [F + k*S] samples with [k] a multiple of the
    batch capacity (a waveform of exactly one frame, [k = 0], is one) gets
    the invalid marker whatever its samples and its embeddings: the loop
    stops one frame early, no partial batch is left, and the last row of the
    buffer stays zero. *)
Theorem whole_batches_give_invalid {T : Type} `{Scalar T}
  (window_length window_shift vector_dim : Z) (self : DeepDream)
  (signal : tensor1 T) (rate : Z) (tr : list (event T)) :
  ieee_laws T ->
  0 < window_shift -> 0 <= window_length -> 0 < vector_dim ->
  0 < number_of_chunks self ->
  (forall batch : tensor2 T,
     Forall (fun f => length f = Z.to_nat window_length) batch ->
     length (net self batch) = length batch /\
     Forall (fun e => length e = Z.to_nat vector_dim) (net self batch)) ->
  window_length <= zlen signal ->
  (zlen signal - window_length) mod window_shift = 0 ->
  ((zlen signal - window_length) / window_shift) mod number_of_chunks self = 0 ->
  transform window_length window_shift vector_dim self [(signal, rate)] tr
  = ((tr ++ map AdapterCall
             (batches_fed window_length window_shift vector_dim self signal))
       ++ [Stdout "NaNs occurred, no result is returned"],
     Ok [(None, rate)]).
Proof.
  intros laws HS HW HD HC Hnet HL Hdiv Hrem.
  assert (HD0 : 0 <= vector_dim) by lia.
  pose proof (process_waveform_overrun window_length window_shift vector_dim self
                HS HW HD0 HC Hnet signal tr HL Hdiv) as Hproc.
  rewrite Hrem in Hproc. unfold overrun_outcome in Hproc. cbn [Z.eqb] in Hproc.
  rewrite (transform_single _ _ _ _ _ _ _ _ _ Hproc).
  rewrite (zero_row_is_flagged laws); [reflexivity | exact HD | |].
  - apply Forall_app. split.
    + apply (fed_embeddings_width window_length window_shift vector_dim self
               HS HW HD0 HC Hnet signal).
    + constructor; [apply repeat_length | constructor].
  - apply in_or_app. right. left. reflexivity.
Qed.

Lemma whole_batches_give_invalid_witness :
  snd (transform 2 2 2 (engine 4 head2_net) [(ramp 2, 16000)] [])
  = Ok [(None, 16000)].
Proof.
  rewrite (whole_batches_give_invalid 2 2 2 (engine 4 head2_net) (ramp 2) 16000 []).
  - reflexivity.
  - exact binary32_ieee_laws.
  - lia.
  - lia.
  - lia.
  - simpl. lia.
  - intros batch. apply head2_net_shape. lia.
  - vm_compute. discriminate.
  - reflexivity.
  - reflexivity.
Defined.

(** X3: a waveform of exactly [F + k*S] samples with [k mod C = 1] has one
    frame left for the partial batch and two rows left in the buffer: the
    embedding of that frame is written to both, so it enters the mean twice,
    and the mean is taken over [k + 1] rows for [k] frames. *)
Theorem last_embedding_counted_twice {T : Type} `{Scalar T}
  (window_length window_shift vector_dim : Z) (self : DeepDream)
  (signal : tensor1 T) (tr : list (event T)) :
  0 < window_shift -> 0 <= window_length -> 0 <= vector_dim ->
  0 < number_of_chunks self ->
  (forall batch : tensor2 T,
     Forall (fun f => length f = Z.to_nat window_length) batch ->
     length (net self batch) = length batch /\
     Forall (fun e => length e = Z.to_nat vector_dim) (net self batch)) ->
  window_length <= zlen signal ->
  (zlen signal - window_length) mod window_shift = 0 ->
  ((zlen signal - window_length) / window_shift) mod number_of_chunks self = 1 ->
  let embeddings :=
    concat (map (net self) (batches_fed window_length window_shift vector_dim self signal)) in
  let buffer := embeddings ++ [last embeddings []] in
  zlen embeddings = (zlen signal - window_length) / window_shift /\
  snd (process_waveform window_length window_shift vector_dim self signal tr)
  = Ok (aggregate vector_dim buffer, count_nan (aggregate vector_dim buffer)).
Proof.
  intros HS HW HD HC Hnet HL Hdiv Hrem embeddings buffer.
  split.
  - destruct (fed_summary window_length window_shift vector_dim self
                HS HW HD HC Hnet signal) as (_ & Hlen & _).
    destruct (loop_passes_divisible window_length window_shift HS signal HL Hdiv)
      as [Hp _].
    rewrite <- Hp, <- Hlen. unfold embeddings, zlen. f_equal.
    apply (fed_embeddings_length window_length window_shift vector_dim self
             HS HW HD HC Hnet signal).
  - rewrite (process_waveform_overrun window_length window_shift vector_dim self
               HS HW HD HC Hnet signal tr HL Hdiv).
    rewrite Hrem. reflexivity.
Qed.

Lemma last_embedding_counted_twice_witness :
  snd (process_waveform 2 2 2 (engine 4 head2_net) (ramp 4) [])
  = Ok (aggregate 2 [[f32 1; f32 2]; [f32 1; f32 2]],
        count_nan (aggregate 2 [[f32 1; f32 2]; [f32 1; f32 2]])).
Proof.
  refine (proj2 (last_embedding_counted_twice 2 2 2 (engine 4 head2_net) (ramp 4) []
                   _ _ _ _ _ _ _ _)).
  - lia.
  - lia.
  - lia.
  - simpl. lia.
  - intros batch. apply head2_net_shape. lia.
  - vm_compute. discriminate.
  - reflexivity.
  - reflexivity.
Defined.

Lemma short_waveform_process {T : Type} `{Scalar T}
  (window_length window_shift vector_dim : Z) (self : DeepDream)
  (signal : tensor1 T) (tr : list (event T)) :
  ieee_laws T ->
  0 < window_shift -> 0 <= number_of_chunks self ->
  zlen signal < window_length -> 0 < vector_dim ->
  process_waveform window_length window_shift vector_dim self signal tr
  = if zlen signal <=? window_length - 2 * window_shift
    then (tr, Raise RuntimeError)
    else (tr, Ok (repeat (s_div s_zero s_zero) (Z.to_nat vector_dim),
                  count_nan (repeat (s_div (s_zero (T := T)) s_zero)
                               (Z.to_nat vector_dim)))).
Proof.
  intros laws HS HC HL HD.
  unfold process_waveform, number_of_frames.
  destruct (window_shift =? 0) eqn:E0; [apply Z.eqb_eq in E0; lia|clear E0].
  unfold bind at 1. unfold lift at 1. unfold bind at 1.
  rewrite zeros2_ok by (unfold zlen in *; lia). unfold lift at 1.
  set (n := Z.quot (zlen signal - window_length + window_shift) window_shift).
  destruct (zlen signal <=? window_length - 2 * window_shift) eqn:Ecase.
  - apply Z.leb_le in Ecase.
    assert (Hn : n < 0).
    { unfold n.
      replace (zlen signal - window_length + window_shift)
        with (- (window_length - zlen signal - window_shift)) by lia.
      rewrite Z.quot_opp_l by lia.
      assert (1 <= Z.quot (window_length - zlen signal - window_shift) window_shift).
      { rewrite Z.quot_div_nonneg by lia. apply Z.div_le_lower_bound; lia. }
      lia. }
    unfold bind at 1. unfold lift at 1. unfold zeros2 at 1.
    destruct (n <? 0) eqn:En; [reflexivity | apply Z.ltb_ge in En; lia].
  - apply Z.leb_gt in Ecase.
    assert (Hn : n = 0).
    { unfold n. destruct (Z.le_gt_cases 0 (zlen signal - window_length + window_shift)).
      - apply Z.quot_small. lia.
      - replace (zlen signal - window_length + window_shift)
          with (- (window_length - zlen signal - window_shift)) by lia.
        rewrite Z.quot_opp_l by lia. rewrite Z.quot_small by lia. reflexivity. }
    rewrite Hn. unfold bind at 1. rewrite zeros2_ok by lia. unfold lift at 1.
    unfold bind at 1. rewrite while_loop_exit by (cbn [end_of_sample]; lia).
    cbn [frame_count vectors]. unfold bind, ret. cbn [Z.gtb Z.compare Z.to_nat repeat].
    unfold aggregate, mean_dim0.
    cbn [norm_p2_dim1 view_column map div_broadcast fold_left zlen length Z.of_nat].
    rewrite (of_Z_zero laws).
    assert (Hrep : forall m : nat,
               map (fun s : T => s_div s s_zero) (repeat s_zero m)
               = repeat (s_div s_zero s_zero) m)
      by (induction m as [|m IH]; simpl; [reflexivity | rewrite IH; reflexivity]).
    rewrite Hrep. reflexivity.
Qed.

Lemma existsb_repeat_nan {T : Type} `{Scalar T} (x : T) (n : nat) :
  s_isnan x = true -> (0 < n)%nat -> existsb s_isnan (repeat x n) = true.
Proof.
  intros Hx Hn. destruct n as [|n]; [lia|]. simpl. rewrite Hx. reflexivity.
Qed.

(** X4: a waveform shorter than a frame, given alone, never reaches the
    adapter.  With [F - 2*S < L < F] line 160 gives zero frames, the mean
    over the empty buffer is NaN in every coordinate, and the call prints
    the diagnostic and returns the invalid marker; with [L <= F - 2*S] line
    160 gives a negative number of frames and the allocation of the buffer
    raises. *)
Theorem short_waveform_outcome {T : Type} `{Scalar T}
  (window_length window_shift vector_dim : Z) (self : DeepDream)
  (signal : tensor1 T) (rate : Z) (tr : list (event T)) :
  ieee_laws T ->
  0 < window_shift -> 0 <= number_of_chunks self ->
  zlen signal < window_length -> 0 < vector_dim ->
  transform window_length window_shift vector_dim self [(signal, rate)] tr
  = if zlen signal <=? window_length - 2 * window_shift
    then (tr, Raise RuntimeError)
    else (tr ++ [Stdout "NaNs occurred, no result is returned"], Ok [(None, rate)]).
Proof.
  intros laws HS HC HL HD.
  pose proof (short_waveform_process window_length window_shift vector_dim self
                signal tr laws HS HC HL HD) as Hproc.
  destruct (zlen signal <=? window_length - 2 * window_shift).
  - apply transform_single_raise. exact Hproc.
  - rewrite (transform_single _ _ _ _ _ _ _ _ _ Hproc).
    rewrite existsb_repeat_nan; [reflexivity | apply (zero_div_zero laws) | lia].
Qed.

Lemma short_waveform_outcome_witness :
  transform 200 80 2 (engine 4 head2_net) [(ramp 100, 16000)] []
    = ([Stdout "NaNs occurred, no result is returned"], Ok [(None, 16000)]) /\
  transform 200 80 2 (engine 4 head2_net) [(ramp 40, 16000)] []
    = ([], Raise RuntimeError).
Proof.
  split.
  - refine (short_waveform_outcome 200 80 2 (engine 4 head2_net) (ramp 100) 16000 []
              binary32_ieee_laws _ _ _ _).
    + lia.
    + simpl. lia.
    + rewrite ramp_length. lia.
    + lia.
  - refine (short_waveform_outcome 200 80 2 (engine 4 head2_net) (ramp 40) 16000 []
              binary32_ieee_laws _ _ _ _).
    + lia.
    + simpl. lia.
    + rewrite ramp_length. lia.
    + lia.
Defined.

(** X5: one NaN coordinate in one frame embedding, or one all-zero frame
    embedding, is enough for the aggregated mean to hold a NaN, which is
    what the health check looks for. *)
Theorem bad_embedding_is_flagged {T : Type} `{Scalar T}
  (vector_dim : Z) (vectors : tensor2 T) :
  ieee_laws T ->
  0 < vector_dim ->
  Forall (fun e => length e = Z.to_nat vector_dim) vectors ->
  In (repeat s_zero (Z.to_nat vector_dim)) vectors \/
  (exists (e : tensor1 T) (j : nat),
     In e vectors /\ (j < Z.to_nat vector_dim)%nat /\ s_isnan (nth j e s_zero) = true) ->
  existsb s_isnan (aggregate vector_dim vectors) = true /\
  0 < count_nan (aggregate vector_dim vectors).
Proof.
  intros laws HD Hw Hbad.
  assert (Hex : existsb s_isnan (aggregate vector_dim vectors) = true).
  { destruct Hbad as [Hzero|(e & j & He & Hj & Hnan)].
    - apply (zero_row_is_flagged laws); assumption.
    - rewrite (aggregate_as_spec vector_dim vectors Hw).
      unfold utterance_embedding_spec. apply existsb_exists.
      exists (coordinate_mean j (map normalize_frame vectors)). split.
      + apply in_map_iff. exists j. split; [reflexivity|]. apply in_seq. lia.
      + unfold coordinate_mean. apply (nan_div_l laws).
        apply (fold_add_nan_in laws _ _ (nth j (normalize_frame e) s_zero)).
        * rewrite map_map. apply in_map_iff. exists e. split; [reflexivity | exact He].
        * rewrite nth_normalize_frame.
          -- apply (nan_div_l laws). exact Hnan.
          -- rewrite Forall_forall in Hw. rewrite (Hw e He). exact Hj. }
  split; [exact Hex|]. rewrite <- count_nan_pos in Hex. apply Z.gtb_lt in Hex. lia.
Qed.

Lemma bad_embedding_is_flagged_witness :
  existsb s_isnan (aggregate 2 [[f32 3; f32 4]; [f32 1; S754_nan]]) = true.
Proof.
  refine (proj1 (bad_embedding_is_flagged 2 [[f32 3; f32 4]; [f32 1; S754_nan]]
                   binary32_ieee_laws _ _ _)).
  - lia.
  - repeat constructor.
  - right. exists [f32 1; S754_nan], 1%nat. split; [right; left; reflexivity|].
    split; [simpl; lia | reflexivity].
Defined.

(** *** What the adapter sees of a whole input *)

Lemma for_loop_calls {T : Type} `{Scalar T}
  (window_length window_shift vector_dim : Z) (self : DeepDream)
  (x : list (tensor1 T * Z)) :
  forall (b b' : option locals) (tr tr' : list (event T)),
  for_loop window_length window_shift vector_dim self x b tr = (tr', Ok b') ->
  adapter_calls tr'
  = adapter_calls tr
    ++ concat (map (fun p => batches_fed window_length window_shift vector_dim self (fst p)) x).
Proof.
  induction x as [|[signal rate] x IH]; intros b b' tr tr' Hrun; cbn [for_loop] in Hrun.
  - unfold ret in Hrun. inversion Hrun. simpl. rewrite app_nil_r. reflexivity.
  - unfold bind in Hrun.
    rewrite (appends_process_waveform window_length window_shift vector_dim self signal tr)
      in Hrun.
    destruct (snd (process_waveform window_length window_shift vector_dim self signal []))
      as [r| e |]; try discriminate.
    rewrite (IH _ _ _ _ Hrun), adapter_calls_app. cbn [map concat fst].
    unfold batches_fed. rewrite app_assoc. reflexivity.
Qed.

(** X6: when a call returns, every waveform of the input has been framed
    and fed to the adapter, in input order and batch by batch, although only
    the pair of the last waveform is returned. *)
Theorem every_waveform_is_fed {T : Type} `{Scalar T}
  (window_length window_shift vector_dim : Z) (self : DeepDream)
  (x : list (tensor1 T * Z)) (tr tr' : list (event T))
  (out : list (option (tensor1 T) * Z)) :
  transform window_length window_shift vector_dim self x tr = (tr', Ok out) ->
  adapter_calls tr'
  = adapter_calls tr
    ++ concat (map (fun p => batches_fed window_length window_shift vector_dim self (fst p)) x).
Proof.
  unfold transform, bind. intros Hrun.
  destruct (for_loop window_length window_shift vector_dim self x None tr)
    as [tr1 [[l|]| e |]] eqn:Hloop; try discriminate.
  rewrite <- (for_loop_calls _ _ _ _ _ _ _ _ _ Hloop).
  destruct (l_nan_sum l >? 0); unfold emit, ret in Hrun; inversion Hrun.
  - rewrite adapter_calls_app. simpl. rewrite app_nil_r. reflexivity.
  - reflexivity.
Qed.

Lemma every_waveform_is_fed_witness :
  map (map (@length spec_float))
    (adapter_calls (fst (transform 2 2 2 (engine 4 head2_net) two_waveforms [])))
  = [[2; 2]; [2; 2; 2]]%nat.
Proof.
  rewrite (every_waveform_is_fed 2 2 2 (engine 4 head2_net) two_waveforms []
             (fst (transform 2 2 2 (engine 4 head2_net) two_waveforms []))
             (outputs (snd (transform 2 2 2 (engine 4 head2_net) two_waveforms [])))).
  - vm_compute. reflexivity.
  - vm_compute. reflexivity.
Defined.

(** X7: when the processing of one waveform raises, the call ends in that
    exception at once: nothing is returned for the waveforms before it, and
    the waveforms after it are not processed. *)
Theorem first_exception_aborts {T : Type} `{Scalar T}
  (window_length window_shift vector_dim : Z) (self : DeepDream)
  (pre post : list (tensor1 T * Z)) (signal : tensor1 T) (rate : Z)
  (tr tr1 tr2 : list (event T)) (b : option locals) (e : exn) :
  for_loop window_length window_shift vector_dim self pre None tr = (tr1, Ok b) ->
  process_waveform window_length window_shift vector_dim self signal tr1 = (tr2, Raise e) ->
  transform window_length window_shift vector_dim self (pre ++ (signal, rate) :: post) tr
  = (tr2, Raise e).
Proof.
  intros Hpre Hproc. unfold transform. unfold bind at 1.
  rewrite for_loop_app, Hpre. cbn [for_loop]. unfold bind at 1. rewrite Hproc.
  reflexivity.
Qed.

Lemma first_exception_aborts_witness :
  transform 200 80 2 (engine 4 head2_net)
    ([(ramp 700, 16000)] ++ (ramp 360, 8000) :: [(ramp 700, 44100)]) []
  = (fst (process_waveform 200 80 2 (engine 4 head2_net) (ramp 360)
            (fst (process_waveform 200 80 2 (engine 4 head2_net) (ramp 700) []))),
     Raise RuntimeError).
Proof.
  eapply first_exception_aborts.
  - vm_compute. reflexivity.
  - vm_compute. reflexivity.
Defined.

(** X8: the adapter is never called on an empty batch nor on more than
    [number_of_chunks] frames. *)
Theorem batch_sizes_in_range {T : Type} `{Scalar T}
  (window_length window_shift vector_dim : Z) (self : DeepDream) (signal : tensor1 T) :
  0 < window_shift -> 0 <= window_length -> 0 <= vector_dim ->
  0 < number_of_chunks self ->
  (forall batch : tensor2 T,
     Forall (fun f => length f = Z.to_nat window_length) batch ->
     length (net self batch) = length batch /\
     Forall (fun e => length e = Z.to_nat vector_dim) (net self batch)) ->
  Forall (fun b => 1 <= zlen b <= number_of_chunks self)
    (batches_fed window_length window_shift vector_dim self signal).
Proof.
  intros HS HW HD HC Hnet.
  destruct (fed_summary window_length window_shift vector_dim self HS HW HD HC Hnet signal)
    as (_ & _ & full & rest & -> & Hfull & _ & Hrest).
  apply Forall_app. split.
  - eapply Forall_impl; [|exact Hfull]. intros b Hb. simpl in Hb. lia.
  - destruct Hrest as [[-> _]|(b & -> & Hb & Hpos)]; [constructor|].
    constructor; [|constructor].
    pose proof (Z.mod_pos_bound
                  (Z.of_nat (Z.to_nat (loop_passes window_length window_shift signal)))
                  (number_of_chunks self) HC).
    lia.
Qed.

Lemma batch_sizes_in_range_witness :
  Forall (fun b => 1 <= zlen b <= 4) (batches_fed 200 80 2 (engine 4 head2_net) (ramp 700)).
Proof.
  apply (batch_sizes_in_range 200 80 2 (engine 4 head2_net) (ramp 700)).
  - lia.
  - lia.
  - lia.
  - simpl. lia.
  - intros batch. apply head2_net_shape. lia.
Defined.

(** *** The last sample *)

Lemma slice_app_inside {A : Type} (l l' : list A) (a b : Z) :
  0 <= a <= b -> b <= zlen l -> slice (l ++ l') a b = slice l a b.
Proof.
  intros Ha Hb.
  rewrite !slice_in_range by (unfold zlen in *; try rewrite length_app; lia).
  rewrite skipn_app, firstn_app, length_skipn.
  replace (Z.to_nat (b - a) - (length l - Z.to_nat a))%nat with 0%nat
    by (unfold zlen in *; lia).
  cbn [firstn]. apply app_nil_r.
Qed.

Lemma passes_inside {T : Type} (window_length window_shift : Z) (signal : tensor1 T)
  (i : nat) :
  0 < window_shift ->
  (i < Z.to_nat (loop_passes window_length window_shift signal))%nat ->
  Z.of_nat i * window_shift + window_length < zlen signal.
Proof.
  intros HS. unfold loop_passes.
  destruct (window_length <? zlen signal) eqn:E; [|simpl; lia].
  apply Z.ltb_lt in E. intros Hi.
  pose proof (Z.mul_div_le (zlen signal - window_length - 1) window_shift HS).
  assert (0 <= (zlen signal - window_length - 1) / window_shift)
    by (apply Z.div_pos; lia).
  nia.
Qed.

(** X9: every frame fed to the adapter ends before the last sample of the
    waveform, so the last sample never reaches the adapter: two waveforms
    that differ in their last sample only feed the same frames. *)
Theorem last_sample_is_never_fed {T : Type} `{Scalar T}
  (window_length window_shift vector_dim : Z) (self : DeepDream)
  (signal : tensor1 T) (x y : T) :
  0 < window_shift -> 0 <= window_length -> 0 <= vector_dim ->
  0 < number_of_chunks self ->
  (forall batch : tensor2 T,
     Forall (fun f => length f = Z.to_nat window_length) batch ->
     length (net self batch) = length batch /\
     Forall (fun e => length e = Z.to_nat vector_dim) (net self batch)) ->
  frames_fed window_length window_shift vector_dim self (signal ++ [x])
  = frames_fed window_length window_shift vector_dim self (signal ++ [y]) /\
  forall i : nat,
    (i < length (frames_fed window_length window_shift vector_dim self (signal ++ [x])))%nat ->
    Z.of_nat i * window_shift + window_length <= zlen signal.
Proof.
  intros HS HW HD HC Hnet.
  destruct (fed_summary window_length window_shift vector_dim self HS HW HD HC Hnet
              (signal ++ [x])) as (Hx & Hlx & _).
  destruct (fed_summary window_length window_shift vector_dim self HS HW HD HC Hnet
              (signal ++ [y])) as (Hy & _ & _).
  assert (Hlen : forall z : T, zlen (signal ++ [z]) = zlen signal + 1)
    by (intros z; unfold zlen; rewrite length_app; simpl; lia).
  assert (Hp : loop_passes window_length window_shift (signal ++ [y])
               = loop_passes window_length window_shift (signal ++ [x]))
    by (unfold loop_passes; rewrite !Hlen; reflexivity).
  assert (Hin : forall i : nat,
             (i < Z.to_nat (loop_passes window_length window_shift (signal ++ [x])))%nat ->
             Z.of_nat i * window_shift + window_length <= zlen signal).
  { intros i Hi.
    pose proof (passes_inside window_length window_shift (signal ++ [x]) i HS Hi) as Hlt.
    rewrite Hlen in Hlt. lia. }
  split.
  - rewrite Hx, Hy, Hp. apply map_ext_in. intros i Hi. apply in_seq in Hi.
    unfold frame. rewrite !slice_app_inside; try reflexivity;
      try (specialize (Hin i ltac:(lia)); nia).
  - intros i Hi. apply Hin. unfold zlen in Hlx. lia.
Qed.

Lemma last_sample_is_never_fed_witness :
  frames_fed 2 2 2 (engine 4 head2_net) ([f32 1; f32 2; f32 3; f32 4] ++ [f32 5])
  = frames_fed 2 2 2 (engine 4 head2_net) ([f32 1; f32 2; f32 3; f32 4] ++ [S754_nan]).
Proof.
  refine (proj1 (last_sample_is_never_fed 2 2 2 (engine 4 head2_net)
                   [f32 1; f32 2; f32 3; f32 4] (f32 5) S754_nan _ _ _ _ _)).
  - lia.
  - lia.
  - lia.
  - simpl. lia.
  - intros batch. apply head2_net_shape. lia.
Defined.

(** *** Fields that [transform] does not read *)

Section Unread.
Context {T : Type} `{Scalar T}.
Variables (window_length window_shift vector_dim : Z).
Variables self self' : DeepDream (T := T).
Hypothesis same_chunks : number_of_chunks self = number_of_chunks self'.
Hypothesis same_net : net self = net self'.

Lemma loop_body_unread (signal : tensor1 T) (st : loop_state) :
  loop_body window_length window_shift vector_dim self signal st
  = loop_body window_length window_shift vector_dim self' signal st.
Proof. unfold loop_body, forward. rewrite same_chunks, same_net. reflexivity. Qed.

Lemma while_loop_unread (fuel : nat) (signal : tensor1 T) (st : loop_state)
  (tr : list (event T)) :
  while_loop window_length window_shift vector_dim self fuel signal st tr
  = while_loop window_length window_shift vector_dim self' fuel signal st tr.
Proof.
  revert st tr; induction fuel as [|fuel IH]; intros st tr; cbn [while_loop].
  - reflexivity.
  - destruct (end_of_sample st <? zlen signal); [|reflexivity].
    unfold bind. rewrite loop_body_unread.
    destruct (loop_body window_length window_shift vector_dim self' signal st tr)
      as [tr1 [st1| e |]]; auto.
Qed.

Lemma process_waveform_unread (signal : tensor1 T) (tr : list (event T)) :
  process_waveform window_length window_shift vector_dim self signal tr
  = process_waveform window_length window_shift vector_dim self' signal tr.
Proof.
  unfold process_waveform, forward, bind. rewrite same_chunks, same_net.
  destruct (lift (number_of_frames window_length window_shift (zlen signal)) tr)
    as [tr1 [n| e |]]; try reflexivity.
  destruct (lift (zeros2 (number_of_chunks self') window_length) tr1)
    as [tr2 [sa| e |]]; try reflexivity.
  destruct (lift (zeros2 n vector_dim) tr2) as [tr3 [v| e |]]; try reflexivity.
  rewrite while_loop_unread. reflexivity.
Qed.

Lemma for_loop_unread (x : list (tensor1 T * Z)) (b : option locals)
  (tr : list (event T)) :
  for_loop window_length window_shift vector_dim self x b tr
  = for_loop window_length window_shift vector_dim self' x b tr.
Proof.
  revert b tr; induction x as [|[signal rate] x IH]; intros b tr; cbn [for_loop].
  - reflexivity.
  - unfold bind. rewrite process_waveform_unread.
    destruct (process_waveform window_length window_shift vector_dim self' signal tr)
      as [tr1 [r| e |]]; auto.
Qed.

End Unread.

(** X10: [transform] reads neither [layer_name] nor [verbose]: two engines
    that differ only in them return the same result, feed the adapter the
    same batches and print the same lines on every input. *)
Theorem layer_name_is_not_read {T : Type} `{Scalar T}
  (window_length window_shift vector_dim : Z)
  (layer layer' : string) (verb verb' gpu : bool) (chunks : Z)
  (f : tensor2 T -> tensor2 T) (x : list (tensor1 T * Z)) (tr : list (event T)) :
  transform window_length window_shift vector_dim
    {| layer_name := layer; verbose := verb; number_of_chunks := chunks;
       use_gpu := gpu; net := f |} x tr
  = transform window_length window_shift vector_dim
      {| layer_name := layer'; verbose := verb'; number_of_chunks := chunks;
         use_gpu := gpu; net := f |} x tr.
Proof.
  unfold transform, bind.
  rewrite (for_loop_unread window_length window_shift vector_dim
             {| layer_name := layer; verbose := verb; number_of_chunks := chunks;
                use_gpu := gpu; net := f |}
             {| layer_name := layer'; verbose := verb'; number_of_chunks := chunks;
                use_gpu := gpu; net := f |} eq_refl eq_refl).
  reflexivity.
Qed.

(** *** The configured windows *)

(** X11: when the sampling rate times the configured shift is below 1000,
    line 51 gives [window_shift = 0]; the division of line 160 then raises
    for the first waveform of every input, before anything is fed to the
    adapter. *)
Theorem zero_shift_raises {T : Type} `{Scalar T}
  (sampling_rate config_window_shift window_length vector_dim : Z) (self : DeepDream)
  (signal : tensor1 T) (rate : Z) (rest : list (tensor1 T * Z)) (tr : list (event T)) :
  0 <= sampling_rate * config_window_shift < 1000 ->
  samples_of_ms sampling_rate config_window_shift = 0 /\
  transform window_length (samples_of_ms sampling_rate config_window_shift) vector_dim self
    ((signal, rate) :: rest) tr
  = (tr, Raise ZeroDivisionError).
Proof.
  intros Hsmall.
  assert (Hz : samples_of_ms sampling_rate config_window_shift = 0)
    by (unfold samples_of_ms; apply Z.quot_small; exact Hsmall).
  split; [exact Hz|]. rewrite Hz. reflexivity.
Qed.

Lemma zero_shift_raises_witness :
  transform 18 (samples_of_ms 90 10) 2 (engine 4 head2_net) [(ramp 700, 90)] []
  = ([], Raise ZeroDivisionError).
Proof.
  refine (proj2 (zero_shift_raises 90 10 18 2 (engine 4 head2_net) (ramp 700) 90 [] [] _)).
  lia.
Defined.

(** ** The data loader *)

Section LoaderFacts.
Context {T : Type} `{Scalar T} `{Magnitude T}.
Variable sf_read : string -> option (tensor1 T * Z).

Lemma amplitude_normalization_cases (signal : tensor1 T) :
  (signal = [] /\ amplitude_normalization signal = LoadRaise ValueError) \/
  (signal <> [] /\
   exists peak : T,
     np_max (map s_abs signal) = Some peak /\
     amplitude_normalization signal = Loaded (map (fun v => s_div v peak) signal)).
Proof.
  destruct signal as [|v signal]; [left; split; reflexivity|].
  right. split; [discriminate|]. eexists. split; reflexivity.
Qed.

Lemma loader_loop_app (x y : list string) (output : list (tensor1 T * Z)) :
  loader_loop sf_read (x ++ y) output
  = match loader_loop sf_read x output with
    | Loaded output' => loader_loop sf_read y output'
    | LoadRaise e => LoadRaise e
    end.
Proof.
  revert output; induction x as [|f x IH]; intros output; cbn [app loader_loop].
  - reflexivity.
  - destruct (sf_read f) as [[signal rate]|]; [|reflexivity].
    destruct (amplitude_normalization signal); [apply IH | reflexivity].
Qed.

Lemma loader_loop_spec (x : list string) :
  forall output out : list (tensor1 T * Z),
  loader_loop sf_read x output = Loaded out ->
  exists new, out = output ++ new /\ Forall2 (loads sf_read) x new.
Proof.
  induction x as [|f x IH]; intros output out Hrun; cbn [loader_loop] in Hrun.
  - inversion Hrun. exists []. rewrite app_nil_r. split; [reflexivity | constructor].
  - destruct (sf_read f) as [[signal rate]|] eqn:Hread; [|discriminate].
    destruct (amplitude_normalization_cases signal) as [[_ Hn]|(Hne & peak & Hpeak & Hn)];
      rewrite Hn in Hrun; [discriminate|].
    destruct (IH _ _ Hrun) as (new & -> & Hall).
    eexists (_ :: new). rewrite <- app_assoc. split; [reflexivity|].
    constructor; [|exact Hall].
    exists signal, peak. cbn [fst snd]. repeat split; assumption.
Qed.

End LoaderFacts.

(** X12: when [DataLoader.transform] returns, it returns one pair per file
    name, in the order of the file names: the samples read from the file,
    each divided by the largest magnitude among them, with the sample rate
    read from the file. *)
Theorem data_loader_keeps_order {T : Type} `{Scalar T} `{Magnitude T}
  (sf_read : string -> option (tensor1 T * Z)) (x : list string)
  (out : list (tensor1 T * Z)) :
  data_loader_transform sf_read x = Loaded out ->
  length out = length x /\ Forall2 (loads sf_read) x out.
Proof.
  intros Hrun. destruct (loader_loop_spec sf_read x [] out Hrun) as (new & -> & Hall).
  cbn [app]. split; [symmetry; eapply Forall2_length; exact Hall | exact Hall].
Qed.

Lemma data_loader_keeps_order_witness :
  length (match @data_loader_transform spec_float binary64 float_magnitude sample_files
                  ["silence.wav"; "ramp.wav"]%string
          with Loaded out => out | LoadRaise _ => [] end) = 2%nat.
Proof.
  refine (proj1 (@data_loader_keeps_order spec_float binary64 float_magnitude sample_files
                   ["silence.wav"; "ramp.wav"]%string _ _)).
  vm_compute. reflexivity.
Defined.

(** X13: the first file that cannot be read, or that holds no sample, ends
    [DataLoader.transform]: in the error of the sound file library for the
    former, in the ValueError of [np.max] on an empty array for the latter.
    What was loaded before is not returned and the files after are not
    read. *)
Theorem data_loader_first_failure {T : Type} `{Scalar T} `{Magnitude T}
  (sf_read : string -> option (tensor1 T * Z))
  (pre post : list string) (file_name : string) (loaded_pre : list (tensor1 T * Z)) :
  data_loader_transform sf_read pre = Loaded loaded_pre ->
  (sf_read file_name = None ->
   data_loader_transform sf_read (pre ++ file_name :: post) = LoadRaise SoundFileError) /\
  (forall rate : Z,
     sf_read file_name = Some ([], rate) ->
     data_loader_transform sf_read (pre ++ file_name :: post) = LoadRaise ValueError).
Proof.
  intros Hpre. unfold data_loader_transform in *. split.
  - intros Hread. rewrite loader_loop_app, Hpre. cbn [loader_loop]. rewrite Hread.
    reflexivity.
  - intros rate Hread. rewrite loader_loop_app, Hpre. cbn [loader_loop]. rewrite Hread.
    reflexivity.
Qed.

Lemma data_loader_first_failure_witness :
  @data_loader_transform spec_float binary64 float_magnitude sample_files
    (["ramp.wav"%string] ++ "empty.wav"%string :: ["silence.wav"%string])
  = LoadRaise ValueError.
Proof.
  refine (proj2 (@data_loader_first_failure spec_float binary64 float_magnitude sample_files
                   ["ramp.wav"]%string ["silence.wav"]%string "empty.wav"%string _ _)
            44100 _).
  - vm_compute. reflexivity.
  - reflexivity.
Defined.

(** X14: a file that holds samples, all of them zero, comes out of the
    amplitude normalisation as NaN samples: the largest magnitude is zero
    and every sample is [0 / 0]. *)
Theorem silent_file_gives_nan {T : Type} `{Scalar T} `{Magnitude T} (n : nat) :
  s_abs (s_zero (T := T)) = s_zero ->
  s_max (s_zero (T := T)) s_zero = s_zero ->
  s_isnan (s_div (s_zero (T := T)) s_zero) = true ->
  (0 < n)%nat ->
  exists out : tensor1 T,
    amplitude_normalization (repeat s_zero n) = Loaded out /\
    length out = n /\
    forallb s_isnan out = true.
Proof.
  intros Habs Hmax Hnan Hn. destruct n as [|n]; [lia|].
  assert (Hpeak : forall m : nat,
             fold_left s_max (map s_abs (repeat (s_zero (T := T)) m)) s_zero = s_zero).
  { induction m as [|m IH]; simpl; [reflexivity|]. rewrite Habs, Hmax. exact IH. }
  exists (map (fun v => s_div v s_zero) (repeat (s_zero (T := T)) (S n))). split.
  - unfold amplitude_normalization. cbn [repeat map np_max]. rewrite Habs, Hpeak.
    reflexivity.
  - split; [rewrite length_map; apply repeat_length|].
    apply forallb_forall. intros v Hv. apply in_map_iff in Hv.
    destruct Hv as (z & <- & Hz). apply repeat_spec in Hz. subst z. exact Hnan.
Qed.

Lemma silent_file_gives_nan_witness :
  exists out : tensor1 spec_float,
    @amplitude_normalization spec_float binary64 float_magnitude
      (repeat (@s_zero spec_float binary64) 4) = Loaded out /\
    length out = 4%nat /\
    forallb (@s_isnan spec_float binary64) out = true.
Proof.
  apply (@silent_file_gives_nan spec_float binary64 float_magnitude 4);
    [reflexivity | reflexivity | reflexivity | lia].
Defined.

(** *** Peak normalisation in exact arithmetic *)

Lemma fold_Rmax_upper (l : list R) (x : R) :
  (x <= fold_left Rmax l x)%R /\
  (forall y : R, In y l -> (y <= fold_left Rmax l x)%R).
Proof.
  revert x; induction l as [|a l IH]; intros x; cbn [fold_left].
  - split; [lra | intros y []].
  - destruct (IH (Rmax x a)) as [Hx Hl]. split.
    + pose proof (Rmax_l x a). lra.
    + intros y [<-|Hy]; [pose proof (Rmax_r x a); lra | apply Hl, Hy].
Qed.

Lemma fold_Rmax_in (l : list R) (x : R) :
  fold_left Rmax l x = x \/ In (fold_left Rmax l x) l.
Proof.
  revert x; induction l as [|a l IH]; intros x; cbn [fold_left].
  - left; reflexivity.
  - destruct (IH (Rmax x a)) as [Heq|Hin].
    + rewrite Heq. unfold Rmax. destruct (Rle_dec x a).
      * right; left; reflexivity.
      * left; reflexivity.
    + right; right; exact Hin.
Qed.

Lemma np_max_real (a : list R) (peak : R) :
  @np_max R real_magnitude a = Some peak ->
  In peak a /\ (forall y : R, In y a -> (y <= peak)%R).
Proof.
  destruct a as [|x l]; cbn [np_max]; [discriminate|].
  intros Heq. inversion Heq as [Hpeak]. clear Heq.
  change (@s_max R real_magnitude) with Rmax in *.
  destruct (fold_Rmax_upper l x) as [Hx Hl]. split.
  - destruct (fold_Rmax_in l x) as [->|Hin]; [left; reflexivity | right; exact Hin].
  - intros y [<-|Hy]; [exact Hx | apply Hl, Hy].
Qed.

Lemma np_max_real_unique (a : list R) (peak : R) :
  a <> [] ->
  In peak a -> (forall y : R, In y a -> (y <= peak)%R) ->
  @np_max R real_magnitude a = Some peak.
Proof.
  intros Hne Hin Hup. destruct a as [|x l]; [congruence|].
  destruct (np_max_real (x :: l) _ eq_refl) as [Hin' Hup'].
  cbn [np_max]. f_equal.
  pose proof (Hup _ Hin'). pose proof (Hup' _ Hin). lra.
Qed.

(** X15: in exact arithmetic, a signal with a sample that is not zero is
    normalised to samples between -1 and 1, as many as before, one of
    which has magnitude exactly 1; normalising the result again changes
    nothing. *)
Theorem normalized_peak_is_one (signal : tensor1 R) (v0 : R) :
  In v0 signal -> v0 <> 0%R ->
  exists out : tensor1 R,
    @amplitude_normalization R exact_real real_magnitude signal = Loaded out /\
    length out = length signal /\
    (forall v : R, In v out -> (-1 <= v <= 1)%R) /\
    (exists v : R, In v out /\ Rabs v = 1%R) /\
    @amplitude_normalization R exact_real real_magnitude out = Loaded out.
Proof.
  intros Hin Hnz.
  assert (Hne : signal <> []) by (intros ->; destruct Hin).
  assert (Hne' : map Rabs signal <> []).
  { intros Hnil. apply map_eq_nil in Hnil. congruence. }
  destruct (@np_max R real_magnitude (map Rabs signal)) as [peak|] eqn:Hpeak.
  2:{ destruct signal; [congruence | discriminate]. }
  destruct (np_max_real _ _ Hpeak) as [Hpin Hup].
  apply in_map_iff in Hpin. destruct Hpin as (vp & Hvp & Hvpin).
  assert (Hpos : (0 < peak)%R).
  { pose proof (Hup (Rabs v0) (in_map Rabs _ _ Hin)).
    pose proof (Rabs_pos_lt v0 Hnz). lra. }
  assert (Hbound : forall v, In v signal -> (Rabs (v / peak) <= 1)%R).
  { intros v Hv. unfold Rdiv. rewrite Rabs_mult, (Rabs_inv peak).
    rewrite (Rabs_pos_eq peak) by lra.
    pose proof (Hup (Rabs v) (in_map Rabs _ _ Hv)).
    apply (Rmult_le_reg_r peak); [exact Hpos|].
    rewrite Rmult_assoc, Rinv_l by lra. lra. }
  assert (Hone : Rabs (vp / peak) = 1%R).
  { unfold Rdiv. rewrite Rabs_mult, (Rabs_inv peak), Hvp.
    rewrite (Rabs_pos_eq peak) by lra. apply Rinv_r. lra. }
  assert (Hnorm : @amplitude_normalization R exact_real real_magnitude signal
                  = Loaded (map (fun v => (v / peak)%R) signal)).
  { unfold amplitude_normalization.
    change (@s_abs R exact_real) with Rabs. rewrite Hpeak. reflexivity. }
  exists (map (fun v => (v / peak)%R) signal). split; [exact Hnorm|].
  split; [apply length_map|]. split; [|split].
  - intros v Hv. apply in_map_iff in Hv. destruct Hv as (u & <- & Hu).
    pose proof (Hbound u Hu) as Hb.
    unfold Rabs in Hb. destruct (Rcase_abs (u / peak)); lra.
  - exists (vp / peak)%R.
    split; [exact (in_map (fun v => (v / peak)%R) _ _ Hvpin) | exact Hone].
  - unfold amplitude_normalization.
    change (@s_abs R exact_real) with Rabs.
    rewrite (np_max_real_unique _ 1%R).
    + apply f_equal.
      transitivity (map (fun x : R => x) (map (fun v => (v / peak)%R) signal));
        [|apply map_id].
      apply map_ext.
      intros a. change (@s_div R exact_real a 1%R) with (a / 1)%R. lra.
    + intros Hnil. apply map_eq_nil in Hnil. apply map_eq_nil in Hnil. congruence.
    + rewrite <- Hone.
      exact (in_map Rabs _ _ (in_map (fun v => (v / peak)%R) _ _ Hvpin)).
    + intros y Hy. apply in_map_iff in Hy. destruct Hy as (u & <- & Hu).
      apply in_map_iff in Hu. destruct Hu as (w & <- & Hw). apply Hbound, Hw.
Qed.

Lemma normalized_peak_is_one_witness :
  exists out : tensor1 R,
    @amplitude_normalization R exact_real real_magnitude [1; -4; 2]%R = Loaded out /\
    length out = length [1; -4; 2]%R /\
    (forall v : R, In v out -> (-1 <= v <= 1)%R) /\
    (exists v : R, In v out /\ Rabs v = 1%R) /\
    @amplitude_normalization R exact_real real_magnitude out = Loaded out.
Proof.
  apply (normalized_peak_is_one [1; -4; 2]%R (-4)%R).
  - right; left; reflexivity.
  - lra.
Defined.

(** ** The pipeline and [main] *)

Section PipelineFacts.
Context {T : Type} `{Scalar T}.
Variables (window_length window_shift vector_dim : Z).
Variable self : DeepDream (T := T).

Local Abbreviation run_transform := (transform window_length window_shift vector_dim self).

Lemma appends_for_loop (x : list (tensor1 T * Z)) (b : option locals) :
  appends (for_loop window_length window_shift vector_dim self x b).
Proof.
  revert b; induction x as [|[signal rate] x IH]; intros b; cbn [for_loop].
  - apply appends_ret.
  - apply appends_bind; [apply appends_process_waveform | intros r; apply IH].
Qed.

Lemma appends_transform (x : list (tensor1 T * Z)) : appends (run_transform x).
Proof.
  unfold transform. apply appends_bind; [apply appends_for_loop|].
  intros [l|]; [|apply appends_lift].
  destruct (l_nan_sum l >? 0); [|apply appends_ret].
  apply appends_bind; [apply appends_emit | intros _; apply appends_ret].
Qed.

Lemma transform_nonempty_bound (x : list (tensor1 T * Z)) (tr : list (event T)) :
  x <> [] -> snd (run_transform x tr) <> Raise UnboundLocalError.
Proof.
  intros Hx. unfold transform, bind.
  pose proof (avoids_for_loop window_length window_shift vector_dim self x None tr) as Hav.
  destruct (for_loop window_length window_shift vector_dim self x None tr)
    as [tr1 [b| e |]] eqn:Hloop; simpl in *.
  - destruct (for_loop_bound _ _ _ _ _ _ _ _ _ Hloop Hx) as [l ->].
    destruct (l_nan_sum l >? 0); discriminate.
  - intros Heq. apply Hav. inversion Heq. reflexivity.
  - discriminate.
Qed.

Lemma transform_single_rate (signal : tensor1 T) (rate : Z) (tr tr' : list (event T))
  (out : list (option (tensor1 T) * Z)) :
  run_transform [(signal, rate)] tr = (tr', Ok out) ->
  exists v : option (tensor1 T), out = [(v, rate)].
Proof.
  unfold transform. cbn [for_loop]. unfold bind.
  destruct (process_waveform window_length window_shift vector_dim self signal tr)
    as [tr1 [r| e |]]; try discriminate.
  unfold ret at 1. cbn [l_nan_sum l_sample_rate l_predictions].
  destruct (snd r >? 0).
  - unfold emit, ret. intros Heq. inversion Heq. eexists; reflexivity.
  - unfold ret. intros Heq. inversion Heq. eexists; reflexivity.
Qed.

End PipelineFacts.

(** X16: [main] on a model that loads.  The log starts with the line
    "Loading model ..."; a file that cannot be read, or that holds no
    sample, ends the run in the loader's error; otherwise the engine is
    given one waveform, so the run never ends in the unbound-variable
    error of an empty input, and a value that is printed is a list of one
    pair that carries the sample rate read from the file. *)
Theorem main_single_file {T64 T : Type} `{Scalar T64} `{Magnitude T64} `{Scalar T}
  (window_length window_shift vector_dim : Z)
  (sf_read : string -> option (tensor1 T64 * Z)) (to_float : T64 -> T)
  (load_model : string -> bool -> outcome (tensor2 T -> tensor2 T))
  (DEFAULT_NUMBER_OF_CHUNKS : Z) (model_path file_path : string)
  (f : tensor2 T -> tensor2 T) (tr : list (event T)) :
  load_model model_path false = Ok f ->
  let run := main window_length window_shift vector_dim sf_read to_float load_model
               DEFAULT_NUMBER_OF_CHUNKS model_path file_path tr in
  (exists rest : list (event T), fst run = tr ++ Stdout "Loading model ..." :: rest) /\
  (sf_read file_path = None -> snd run = LoadRaise SoundFileError) /\
  (forall rate : Z, sf_read file_path = Some ([], rate) -> snd run = LoadRaise ValueError) /\
  snd run <> Loaded (Raise UnboundLocalError) /\
  (forall out : list (option (tensor1 T) * Z),
     snd run = Loaded (Ok out) ->
     exists (signal : tensor1 T64) (rate : Z) (v : option (tensor1 T)),
       sf_read file_path = Some (signal, rate) /\ signal <> [] /\ out = [(v, rate)]).
Proof.
  intros Hload run. subst run.
  unfold main, get_processing_pipeline, init, bind, emit, lift, ret. rewrite Hload.
  unfold pipeline_transform, data_loader_transform. cbn [loader_loop].
  destruct (sf_read file_path) as [[signal rate]|] eqn:Hread.
  2:{ cbn [fst snd]. repeat split; try discriminate.
      exists []. reflexivity. }
  destruct (amplitude_normalization_cases signal) as [[-> Hn]|(Hne & peak & _ & Hn)];
    rewrite Hn.
  { cbn [fst snd]. repeat split; try discriminate.
    exists []. reflexivity. }
  cbn [app map fst snd].
  set (self := {| layer_name := "first"%string; verbose := true;
                  number_of_chunks := DEFAULT_NUMBER_OF_CHUNKS;
                  use_gpu := false; net := f |}).
  set (wave := map to_float _).
  pose proof (appends_transform window_length window_shift vector_dim self
                [(wave, rate)] (tr ++ [Stdout "Loading model ..."])) as Happ.
  pose proof (transform_nonempty_bound window_length window_shift vector_dim self
                [(wave, rate)] (tr ++ [Stdout "Loading model ..."])) as Hbound.
  pose proof (transform_single_rate window_length window_shift vector_dim self
                wave rate (tr ++ [Stdout "Loading model ..."])) as Hrate.
  destruct (transform window_length window_shift vector_dim self [(wave, rate)]
              (tr ++ [Stdout "Loading model ..."])) as [tr' res] eqn:Hrun.
  cbn [fst snd] in *. split; [|split; [|split; [|split]]].
  - inversion Happ as [[Htr Hres]]. rewrite <- app_assoc. eexists; reflexivity.
  - discriminate.
  - intros rate' Heq. inversion Heq. subst. congruence.
  - intros Heq. inversion Heq as [Hres]. apply Hbound; [discriminate | exact Hres].
  - intros out Heq. inversion Heq as [Hres]. try subst res.
    destruct (Hrate tr' out Hrun) as [v ->].
    exists signal, rate, v. repeat split. exact Hne.
Qed.

Lemma main_single_file_witness :
  let run := @main spec_float spec_float binary64 float_magnitude binary32
               2 2 2 sample_files float_of_double mock_loader 4
               "model.pkl" "ramp.wav" [] in
  (exists rest, fst run = [] ++ Stdout "Loading model ..." :: rest) /\
  (sample_files "ramp.wav" = None -> snd run = LoadRaise SoundFileError) /\
  (forall rate : Z,
     sample_files "ramp.wav" = Some ([], rate) -> snd run = LoadRaise ValueError) /\
  snd run <> Loaded (Raise UnboundLocalError) /\
  (forall out : list (option (tensor1 spec_float) * Z),
     snd run = Loaded (Ok out) ->
     exists (signal : tensor1 spec_float) (rate : Z) (v : option (tensor1 spec_float)),
       sample_files "ramp.wav" = Some (signal, rate) /\ signal <> [] /\ out = [(v, rate)]).
Proof.
  apply (@main_single_file spec_float spec_float binary64 float_magnitude binary32
           2 2 2 sample_files float_of_double mock_loader 4
           "model.pkl" "ramp.wav" head2_net []).
  reflexivity.
Defined.

(** ** The names of the layers *)

Lemma str_of_nat_injective (i j : nat) : str_of_nat i = str_of_nat j -> i = j.
Proof.
  unfold str_of_nat. intros Heq.
  apply (f_equal NilEmpty.uint_of_string) in Heq.
  rewrite !NilEmpty.usu in Heq. inversion Heq as [Huint].
  apply (f_equal Nat.of_uint) in Huint.
  rewrite !DecimalNat.Unsigned.of_to in Huint. exact Huint.
Qed.

Lemma append_injective (prefix a b : string) :
  (prefix ++ a)%string = (prefix ++ b)%string -> a = b.
Proof.
  induction prefix as [|c prefix IH]; cbn [String.append]; intros Heq.
  - exact Heq.
  - inversion Heq. apply IH. assumption.
Qed.

Lemma layer_names_length (prefix : string) (count : nat) :
  length (layer_names prefix count) = count.
Proof. unfold layer_names. rewrite length_map. apply length_seq. Qed.

Lemma layer_names_NoDup (prefix : string) (count : nat) :
  NoDup (layer_names prefix count).
Proof.
  unfold layer_names. apply Finite.Injective_map_NoDup; [|apply seq_NoDup].
  intros i j Heq. apply str_of_nat_injective. eapply append_injective. exact Heq.
Qed.

(** X17: the names [_load_model] registers are pairwise distinct, one per
    activation layer of the two networks, with the names of the
    convolutional layers before those of the dense layers; the name of
    layer [i] of either network is the prefix followed by the decimal
    digits of [i]. *)
Theorem available_layer_names_distinct (conv_layers dense_layers : nat) :
  NoDup (available_layer_names conv_layers dense_layers) /\
  length (available_layer_names conv_layers dense_layers)
    = (conv_layers + dense_layers)%nat /\
  (forall i : nat, (i < conv_layers)%nat ->
     nth_error (available_layer_names conv_layers dense_layers) i
     = Some ("conv_" ++ str_of_nat i)%string) /\
  (forall i : nat, (i < dense_layers)%nat ->
     nth_error (available_layer_names conv_layers dense_layers) (conv_layers + i)
     = Some ("dense_" ++ str_of_nat i)%string).
Proof.
  unfold available_layer_names. split; [|split; [|split]].
  - apply NoDup_app; try apply layer_names_NoDup.
    intros name Hconv Hdense. unfold layer_names in *.
    apply in_map_iff in Hconv. destruct Hconv as (i & <- & _).
    apply in_map_iff in Hdense. destruct Hdense as (j & Heq & _).
    discriminate Heq.
  - rewrite length_app, !layer_names_length. reflexivity.
  - intros i Hi. rewrite nth_error_app1 by (rewrite layer_names_length; exact Hi).
    unfold layer_names. rewrite nth_error_map, nth_error_seq.
    apply Nat.ltb_lt in Hi. rewrite Hi. reflexivity.
  - intros i Hi. rewrite nth_error_app2 by (rewrite layer_names_length; lia).
    rewrite layer_names_length. replace (conv_layers + i - conv_layers)%nat with i by lia.
    unfold layer_names. rewrite nth_error_map, nth_error_seq.
    apply Nat.ltb_lt in Hi. rewrite Hi. reflexivity.
Qed.

Lemma available_layer_names_distinct_witness :
  nth_error (available_layer_names 3 2) (3 + 1) = Some "dense_1"%string.
Proof.
  apply (proj2 (proj2 (proj2 (available_layer_names_distinct 3 2)))). lia.
Defined.

(** ** The aggregation in exact arithmetic *)

Lemma fold_Rplus_shift (l : list R) (a : R) :
  fold_left Rplus l a = (a + fold_left Rplus l 0)%R.
Proof.
  revert a; induction l as [|x l IH]; intros a; cbn [fold_left].
  - lra.
  - rewrite (IH (a + x)%R), (IH (0 + x)%R). lra.
Qed.

Lemma real_sum_cons (x : R) (l : list R) :
  @sum R exact_real (x :: l) = (x + @sum R exact_real l)%R.
Proof.
  unfold sum. cbn [fold_left]. change (@s_add R exact_real) with Rplus.
  change (@s_zero R exact_real) with 0%R. rewrite fold_Rplus_shift. lra.
Qed.

Lemma real_sum_squares (e : list R) :
  (0 <= @sum R exact_real (map (fun x => @s_mul R exact_real x x) e))%R /\
  (forall x : R, In x e ->
     (x * x <= @sum R exact_real (map (fun x => @s_mul R exact_real x x) e))%R).
Proof.
  induction e as [|y e [IH0 IH]]; cbn [map].
  - split; [unfold sum; simpl; lra | intros x []].
  - rewrite real_sum_cons. change (@s_mul R exact_real y y) with (y * y)%R.
    pose proof (Rle_0_sqr y) as Hy. unfold Rsqr in Hy. split; [lra|].
    intros x [<-|Hx]; [lra | specialize (IH x Hx); lra].
Qed.

(** In exact arithmetic the norm of a row is the Euclidean one, also for
    a row of one coordinate. *)
Lemma real_norm_euclidean (e : list R) :
  @l2_norm R exact_real e
  = sqrt (@sum R exact_real (map (fun x => @s_mul R exact_real x x) e)).
Proof.
  unfold l2_norm, vector_norm. destruct e as [|x [|y e]]; try reflexivity.
  cbn [map]. rewrite real_sum_cons. unfold sum. cbn [fold_left].
  change (@s_abs R exact_real x) with (Rabs x).
  change (@s_mul R exact_real x x) with (Rsqr x).
  change (@s_zero R exact_real) with 0%R.
  rewrite Rplus_0_r. symmetry. apply sqrt_Rsqr_abs.
Qed.

Lemma real_norm_bounds (e : list R) (x : R) :
  In x e -> (Rabs x <= @l2_norm R exact_real e)%R.
Proof.
  intros Hx. rewrite real_norm_euclidean.
  destruct (real_sum_squares e) as [_ Hle]. specialize (Hle x Hx).
  rewrite <- sqrt_Rsqr_abs. apply sqrt_le_1_alt. exact Hle.
Qed.

Lemma real_norm_positive (e : list R) (x : R) :
  In x e -> x <> 0%R -> (0 < @l2_norm R exact_real e)%R.
Proof.
  intros Hx Hnz. pose proof (real_norm_bounds e x Hx). pose proof (Rabs_pos_lt x Hnz). lra.
Qed.

Lemma real_norm_scale (c : R) (e : list R) :
  (0 < c)%R ->
  @l2_norm R exact_real (map (Rmult c) e) = (c * @l2_norm R exact_real e)%R.
Proof.
  intros Hc. rewrite !real_norm_euclidean.
  assert (Hsum : @sum R exact_real (map (fun x => @s_mul R exact_real x x) (map (Rmult c) e))
                 = (c * c * @sum R exact_real (map (fun x => @s_mul R exact_real x x) e))%R).
  { induction e as [|y e IH]; cbn [map].
    - unfold sum. simpl. lra.
    - rewrite !real_sum_cons, IH. change (@s_mul R exact_real) with Rmult. lra. }
  rewrite Hsum, sqrt_mult_alt by nra. rewrite sqrt_square by lra. reflexivity.
Qed.

Lemma real_sum_bounded (l : list R) :
  (forall v : R, In v l -> (-1 <= v <= 1)%R) ->
  (- IZR (zlen l) <= @sum R exact_real l <= IZR (zlen l))%R.
Proof.
  induction l as [|x l IH]; intros Hb.
  - unfold sum, zlen. simpl. lra.
  - rewrite real_sum_cons. unfold zlen in *. cbn [length].
    rewrite Nat2Z.inj_succ, succ_IZR.
    pose proof (Hb x (or_introl eq_refl)).
    assert (forall v, In v l -> (-1 <= v <= 1)%R) as Hl by (intros v Hv; apply Hb; right; exact Hv).
    specialize (IH Hl). lra.
Qed.

(** X18: in exact arithmetic, for a buffer that holds at least one frame
    embedding and no all-zero one, the utterance embedding has
    [vector_dim] coordinates and every one of them lies between -1 and
    1. *)
Theorem aggregate_in_unit_cube (vector_dim : Z) (vectors : tensor2 R) :
  vectors <> [] ->
  Forall (fun e => length e = Z.to_nat vector_dim /\ exists x : R, In x e /\ x <> 0%R)
    vectors ->
  length (@aggregate R exact_real vector_dim vectors) = Z.to_nat vector_dim /\
  forall v : R, In v (@aggregate R exact_real vector_dim vectors) -> (-1 <= v <= 1)%R.
Proof.
  intros Hne Hrows.
  rewrite aggregate_as_spec
    by (eapply Forall_impl; [|exact Hrows]; intros e [He _]; exact He).
  unfold utterance_embedding_spec. split; [rewrite length_map; apply length_seq|].
  intros v Hv. apply in_map_iff in Hv. destruct Hv as (j & <- & _).
  unfold coordinate_mean. change (@s_div R exact_real) with Rdiv.
  change (@s_of_Z R exact_real) with IZR.
  set (column := map (fun e => nth j e (@s_zero R exact_real))
                   (map (@normalize_frame R exact_real) vectors)).
  assert (Hpos : (0 < IZR (zlen column))%R).
  { apply IZR_lt. unfold column, zlen. rewrite !length_map.
    destruct vectors; [congruence | cbn [length]; lia]. }
  assert (Hcol : forall v, In v column -> (-1 <= v <= 1)%R).
  { intros v Hv. unfold column in Hv. rewrite map_map in Hv.
    apply in_map_iff in Hv. destruct Hv as (e & <- & He).
    rewrite Forall_forall in Hrows. destruct (Hrows e He) as [_ (x & Hx & Hnz)].
    pose proof (real_norm_positive e x Hx Hnz) as Hnorm.
    unfold normalize_frame. change (@s_zero R exact_real) with 0%R.
    destruct (Nat.lt_ge_cases j (length e)) as [Hj|Hj].
    - rewrite (nth_indep _ 0%R (@s_div R exact_real 0%R (@l2_norm R exact_real e)))
        by (rewrite length_map; exact Hj).
      rewrite (map_nth (fun x => @s_div R exact_real x (@l2_norm R exact_real e))).
      change (@s_div R exact_real) with Rdiv.
      pose proof (real_norm_bounds e (nth j e 0%R) (nth_In e 0%R Hj)) as Hb.
      assert (Hq : (Rabs (nth j e 0 / @l2_norm R exact_real e) <= 1)%R).
      { unfold Rdiv. rewrite Rabs_mult, Rabs_inv, (Rabs_pos_eq (@l2_norm R exact_real e)) by lra.
        apply (Rmult_le_reg_r (@l2_norm R exact_real e)); [exact Hnorm|].
        rewrite Rmult_assoc, Rinv_l by lra. lra. }
      unfold Rabs in Hq. destruct (Rcase_abs _); lra.
    - rewrite nth_overflow by (rewrite length_map; exact Hj). lra. }
  pose proof (real_sum_bounded column Hcol) as Hsum.
  assert (Hmean : forall d : R, d = IZR (zlen column) ->
                    (-1 <= @sum R exact_real column / d <= 1)%R).
  { intros d ->. split.
    - apply (Rmult_le_reg_r (IZR (zlen column))); [exact Hpos|].
      unfold Rdiv. rewrite Rmult_assoc, Rinv_l by lra. lra.
    - apply (Rmult_le_reg_r (IZR (zlen column))); [exact Hpos|].
      unfold Rdiv. rewrite Rmult_assoc, Rinv_l by lra. lra. }
  apply Hmean. unfold column, zlen. rewrite !length_map. reflexivity.
Qed.

Lemma aggregate_in_unit_cube_witness :
  length (@aggregate R exact_real 2 [[3; 4]; [0; -2]]%R) = Z.to_nat 2 /\
  forall v : R, In v (@aggregate R exact_real 2 [[3; 4]; [0; -2]]%R) -> (-1 <= v <= 1)%R.
Proof.
  apply (aggregate_in_unit_cube 2 [[3; 4]; [0; -2]]%R).
  - discriminate.
  - repeat constructor.
    + exists 3%R. split; [left; reflexivity | lra].
    + exists (-2)%R. split; [right; left; reflexivity | lra].
Defined.

(** X19: in exact arithmetic the utterance embedding depends on the
    directions of the frame embeddings only: multiplying each frame
    embedding by a positive factor of its own changes nothing. *)
Theorem aggregate_ignores_frame_scale (vector_dim : Z) (rows : list (R * tensor1 R)) :
  Forall (fun p => (0 < fst p)%R /\ exists x : R, In x (snd p) /\ x <> 0%R) rows ->
  @aggregate R exact_real vector_dim (map (fun p => map (Rmult (fst p)) (snd p)) rows)
  = @aggregate R exact_real vector_dim (map snd rows).
Proof.
  intros Hrows. unfold aggregate. rewrite !div_broadcast_own_norm. f_equal.
  rewrite !map_map. apply map_ext_in. intros [c e] Hin. cbn [fst snd].
  rewrite Forall_forall in Hrows. destruct (Hrows _ Hin) as [Hc (x & Hx & Hnz)].
  cbn [fst snd] in Hc, Hx.
  pose proof (real_norm_positive e x Hx Hnz) as Hnorm.
  unfold normalize_frame. rewrite real_norm_scale by exact Hc.
  rewrite map_map. apply map_ext. intros y.
  change (@s_div R exact_real) with Rdiv. field. split; lra.
Qed.

Lemma aggregate_ignores_frame_scale_witness :
  @aggregate R exact_real 2
    (map (fun p => map (Rmult (fst p)) (snd p)) [(2, [3; 4]); (5, [0; -2])]%R)
  = @aggregate R exact_real 2 (map snd [(2, [3; 4]); (5, [0; -2])]%R).
Proof.
  apply (aggregate_ignores_frame_scale 2 [(2, [3; 4]); (5, [0; -2])]%R).
  repeat constructor; cbn [fst snd]; try lra.
  - exists 3%R. split; [left; reflexivity | lra].
  - exists (-2)%R. split; [right; left; reflexivity | lra].
Defined.

(** X20: in exact arithmetic the amplitude normalisation removes the gain
    of a recording: a signal and the same signal multiplied by a positive
    factor are normalised to the same samples. *)
Theorem normalization_ignores_gain (signal : tensor1 R) (gain v0 : R) :
  (0 < gain)%R -> In v0 signal -> v0 <> 0%R ->
  @amplitude_normalization R exact_real real_magnitude (map (Rmult gain) signal)
  = @amplitude_normalization R exact_real real_magnitude signal.
Proof.
  intros Hg Hin Hnz.
  assert (Hne : map Rabs signal <> []).
  { intros Hnil. apply map_eq_nil in Hnil. subst signal. destruct Hin. }
  destruct (@np_max R real_magnitude (map Rabs signal)) as [peak|] eqn:Hpeak.
  2:{ destruct signal; [destruct Hin | discriminate]. }
  destruct (np_max_real _ _ Hpeak) as [Hpin Hup].
  assert (Hpos : (0 < peak)%R).
  { pose proof (Hup (Rabs v0) (in_map Rabs _ _ Hin)).
    pose proof (Rabs_pos_lt v0 Hnz). lra. }
  assert (Hscaled : @np_max R real_magnitude (map Rabs (map (Rmult gain) signal))
                    = Some (gain * peak)%R).
  { apply np_max_real_unique.
    - intros Hnil. apply map_eq_nil in Hnil. apply map_eq_nil in Hnil.
      subst signal. destruct Hin.
    - apply in_map_iff in Hpin. destruct Hpin as (vp & Hvp & Hvpin).
      rewrite map_map. apply in_map_iff. exists vp. split; [|exact Hvpin].
      rewrite Rabs_mult, (Rabs_pos_eq gain), Hvp by lra. reflexivity.
    - intros y Hy. rewrite map_map in Hy. apply in_map_iff in Hy.
      destruct Hy as (u & <- & Hu).
      rewrite Rabs_mult, (Rabs_pos_eq gain) by lra.
      pose proof (Hup (Rabs u) (in_map Rabs _ _ Hu)). nra. }
  unfold amplitude_normalization. change (@s_abs R exact_real) with Rabs.
  rewrite Hscaled, Hpeak. apply f_equal. rewrite map_map. apply map_ext.
  intros y. change (@s_div R exact_real) with Rdiv. field. split; lra.
Qed.

Lemma normalization_ignores_gain_witness :
  @amplitude_normalization R exact_real real_magnitude (map (Rmult 3) [1; -4; 2]%R)
  = @amplitude_normalization R exact_real real_magnitude [1; -4; 2]%R.
Proof.
  apply (normalization_ignores_gain [1; -4; 2]%R 3 (-4)); [lra | | lra].
  right; left; reflexivity.
Defined.
